(** * natscli: the [sub] command (nats/sub_command.go)

    A shallow embedding of [subCmd.subscribe] and of the per-message
    [handler] closure it registers, together with the properties of the
    subscription runner that the specification states.

    The command is a thin adapter over the nats.go client, the jsm.go
    metadata parser and Go's fmt/log packages.  Those collaborators are
    gathered in the record [Env]; every call the command makes on them is
    recorded, in program order, in a trace of [event]s, and their results
    are threaded through explicitly.

    Callbacks run under the mutex [mu] for their whole body, so among
    themselves they are atomic steps on the captured variables; [deliver]
    runs them one after the other, in the order in which they obtained the
    lock.

    The mutex does not order the callbacks with [subscribe] itself, which
    goes on running after it has registered them and shares its variable
    [err] with them.  [subscribe] is the run of the command in which no
    callback completes before the command has returned or reached its
    final wait; [subscribe_live] is the run under any [Schedule] of
    callbacks completing in between, and agrees with [subscribe] on the
    schedule [quiet]. *)

From stdpp Require Import base strings list gmap pretty.
From Stdlib Require Import Ascii ZArith Lia.

Local Open Scope Z_scope.

(** ** Go values *)

(** A Go [error], represented by its message. *)
Definition error : Type := string.

(** The line feed, and the one-character string Go writes as a backslash
    followed by n. *)
Definition LF : ascii := "010"%char.
Definition nl : string := String LF "".

(** Go's [int] on the 64-bit targets: signed, two's complement, wrapping
    silently on overflow. *)
Definition int_bits : Z := 64.
Definition max_int : Z := 2 ^ (int_bits - 1) - 1.
Definition min_int : Z := - 2 ^ (int_bits - 1).
Definition wrap_int (x : Z) : Z :=
  (x + 2 ^ (int_bits - 1)) mod 2 ^ int_bits - 2 ^ (int_bits - 1).

(** [string(b)] for a byte slice [b]. *)
Definition string_of_bytes (b : list Byte.byte) : string :=
  String.string_of_list_byte b.

(** [strings.HasSuffix]: [len(s) >= len(suffix) && s[len(s)-len(suffix):] == suffix]. *)
Definition HasSuffix (s suffix : string) : bool :=
  (String.length suffix <=? String.length s)%nat &&
  bool_decide
    (String.substring (String.length s - String.length suffix)
                      (String.length suffix) s = suffix).

(** ** The data of the command *)

Record subCmd := {
  subject : string;
  queue : string;
  raw : bool;
  jsAck : bool;
  inbox : bool
}.

Definition set_subject (s : string) (c : subCmd) : subCmd :=
  {| subject := s; queue := queue c; raw := raw c;
     jsAck := jsAck c; inbox := inbox c |}.

(** [nats.Msg]; [Header] is a Go map from header name to its values. *)
Record Msg := {
  Subject : string;
  Reply : string;
  Header : gmap string (list string);
  Data : list Byte.byte
}.

(** [jsm.MsgInfo], through its accessors. *)
Record MsgInfo := {
  Stream : string;
  Consumer : string;
  Delivered : Z;
  ConsumerSequence : Z;
  StreamSequence : Z
}.

(** ** Formatted output *)

(** An operand of [fmt.Printf] or [log.Printf]. *)
Inductive arg :=
| AInt (n : Z)
| AStr (s : string)
| ABool (b : bool).

(** The calls the command makes on its collaborators. *)
Inductive event :=
| EvNewInbox                                   (* nats.NewInbox() *)
| EvConnect (name : string)                    (* newNatsConn(name, natsOpts()...) *)
| EvClose                                      (* nc.Close() *)
| EvSubscribe (subj : string)                  (* nc.Subscribe(subj, handler) *)
| EvQueueSubscribe (subj group : string)       (* nc.QueueSubscribe(subj, group, handler) *)
| EvFlush                                      (* nc.Flush() *)
| EvLastError                                  (* nc.LastError() *)
| EvRespond (reply : string) (data : list Byte.byte)   (* m.Respond(data) *)
| EvPrintf (format : string) (args : list arg) (* fmt.Printf *)
| EvPrintln (args : list string)               (* fmt.Println *)
| EvLog (format : string) (args : list arg).   (* log.Printf *)

Definition is_stdout (e : event) : bool :=
  match e with
  | EvPrintf _ _ | EvPrintln _ => true
  | _ => false
  end.

Definition is_respond (e : event) : bool :=
  match e with
  | EvRespond _ _ => true
  | _ => false
  end.

Definition is_log (e : event) : bool :=
  match e with
  | EvLog _ _ => true
  | _ => false
  end.

Section Formatting.
(** [strconv.Quote], which the verb %q applies to a string. *)
Variable Quote : string → string.

(** One verb applied to one operand, for the verbs and operand types the
    command uses.  The format strings of the source always fit their
    operands; for any other pairing Go prints a diagnostic, kept here as a
    fixed marker. *)
Definition format_verb (v : ascii) (a : arg) : string :=
  match a with
  | AInt n =>
      if bool_decide (v = "d"%char) || bool_decide (v = "v"%char)
      then pretty n else "%!(BADVERB)"
  | AStr s =>
      if bool_decide (v = "s"%char) || bool_decide (v = "v"%char) then s
      else if bool_decide (v = "q"%char) then Quote s
      else "%!(BADVERB)"
  | ABool b =>
      if bool_decide (v = "v"%char) || bool_decide (v = "t"%char)
      then (if b then "true" else "false") else "%!(BADVERB)"
  end.

(** [fmt.Sprintf] on the fragment of format strings the command uses:
    plain text and one-letter verbs. *)
Fixpoint Sprintf (format : string) (args : list arg) : string :=
  match format with
  | "" => ""
  | String c rest =>
      if bool_decide (c = "%"%char) then
        match rest with
        | "" => "%!(NOVERB)"
        | String v rest' =>
            match args with
            | a :: args' => format_verb v a +:+ Sprintf rest' args'
            | [] => "%!" +:+ String v "(MISSING)" +:+ Sprintf rest' []
            end
        end
      else String c (Sprintf rest args)
  end.

(** [fmt.Sprintln] on strings: operands separated by spaces, then a line feed. *)
Fixpoint Sprintln (args : list string) : string :=
  match args with
  | [] => nl
  | [a] => a +:+ nl
  | a :: args' => a +:+ " " +:+ Sprintln args'
  end.

(** What one event writes on standard output. *)
Definition render (e : event) : string :=
  match e with
  | EvPrintf format args => Sprintf format args
  | EvPrintln args => Sprintln args
  | _ => ""
  end.

(** The text a trace leaves on standard output. *)
Fixpoint stdout (t : list event) : string :=
  match t with
  | [] => ""
  | e :: t' => render e +:+ stdout t'
  end.
End Formatting.

(** ** Collaborators *)

(** Everything the command calls and does not define: nats.go
    ([NewInbox], the connection and its methods, [Msg.Respond]), jsm.go
    ([ParseJSMsgMetadata]), strconv ([Quote]) and the helper [newNatsConn]
    of the same package, which lives in another file and is taken here as
    given.  A Go result pair [(v, err)] of the client library is kept as
    the error alone where the command never looks at [v]. *)
Record Env := {
  Nuid : Type;   (* state of the generator behind nats.NewInbox *)
  Conn : Type;   (* a *nats.Conn together with the state of the connection *)
  NewInbox : Nuid → string * Nuid;
  newNatsConn : string → Conn + error;
  Subscribe : string → Conn → option error * Conn;
  QueueSubscribe : string → string → Conn → option error * Conn;
  Flush : Conn → option error * Conn;
  LastError : Conn → option error;
  Close : Conn → Conn;
  Respond : Msg → list Byte.byte → Conn → option error * Conn;
  ParseJSMsgMetadata : Msg → option MsgInfo * option error;
  Quote : string → string
}.

(** ** The format strings of the source *)

Definition fmt_plain_reply : string :=
  "[#%d] Received on %q with reply %q" +:+ nl.
Definition fmt_plain : string :=
  "[#%d] Received on %q" +:+ nl.
Definition fmt_jetstream : string :=
  "[#%d] Received JetStream message: consumer: %s > %s / subject: %s / delivered: %d / consumer seq: %d / stream seq: %d / ack: %v" +:+ nl.
Definition fmt_header : string :=
  "%s: %s" +:+ nl.
Definition fmt_ack_failed : string :=
  "Acknowledging message via subject %s failed: %s" +:+ nl.
Definition fmt_subscribing_ack : string :=
  "Subscribing on %s with acknowledgement of JetStream messages" +:+ nl.
Definition fmt_subscribing : string :=
  "Subscribing on %s" +:+ nl.

(** ** The callback *)

(** The variables of [subscribe] that the closure [handler] captures. *)
Record Captured (E : Env) := {
  var_i : Z;
  var_err : option error;
  var_nc : Conn E
}.
Arguments var_i {E} _.
Arguments var_err {E} _.
Arguments var_nc {E} _.

(** One message as the client library hands it to the callback.  Go leaves
    the order in which [range] visits a map unspecified: [visit] is the
    order in which this invocation's [range m.Header] yields the entries. *)
Record Delivery := {
  msg : Msg;
  visit : list (string * list string)
}.

(** [visit] is an order Go may pick: some enumeration of the map's entries. *)
Definition range_ok (d : Delivery) : Prop :=
  visit d ≡ₚ map_to_list (Header (msg d)).

(** How [subscribe] ends: it returns an error, or it stays in the final
    receive on [context.Background().Done()], which never delivers, so
    that [return nil] is never reached. *)
Inductive outcome :=
| Returned (e : error)
| Waiting.

Section Command.
Variable E : Env.

(** Lines 75-78: [info] stays nil unless the reply subject is set and the
    parser returns metadata; the parser's error is dropped. *)
Definition msg_info (m : Msg) : option MsgInfo :=
  if bool_decide (Reply m ≠ "") then (ParseJSMsgMetadata E m).1 else None.

(** Lines 95-104: the summary line, which carries the index. *)
Definition summary (c : subCmd) (m : Msg) (i : Z) (info : option MsgInfo)
  : list event :=
  match info with
  | None =>
      if bool_decide (Reply m ≠ "") then
        [EvPrintf fmt_plain_reply [AInt i; AStr (Subject m); AStr (Reply m)]]
      else
        [EvPrintf fmt_plain [AInt i; AStr (Subject m)]]
  | Some info =>
      [EvPrintf fmt_jetstream
         [AInt i; AStr (Stream info); AStr (Consumer info);
          AStr (Subject m); AInt (Delivered info);
          AInt (ConsumerSequence info); AInt (StreamSequence info);
          ABool (jsAck c)]]
  end.

(** Lines 106-114: one line per value, in the order of the [range], then
    an empty line. *)
Definition headers (d : Delivery) : list event :=
  if bool_decide (0 < size (Header (msg d)))%nat then
    flat_map (λ '(h, vals),
        map (λ val, EvPrintf fmt_header [AStr h; AStr val]) vals)
      (visit d)
    ++ [EvPrintln []]
  else [].

(** Lines 116-119. *)
Definition payload (m : Msg) : list event :=
  EvPrintln [string_of_bytes (Data m)]
  :: (if negb (HasSuffix (string_of_bytes (Data m)) nl)
      then [EvPrintln []] else []).

(** Lines 90-119: what the callback prints. *)
Definition display (c : subCmd) (d : Delivery) (i : Z)
    (info : option MsgInfo) : list event :=
  if raw c then [EvPrintln [string_of_bytes (Data (msg d))]]
  else summary c (msg d) i info ++ headers d ++ payload (msg d).

(** Lines 81-87: the deferred closure; it assigns the [err] of
    [subscribe]. *)
Definition acknowledge (m : Msg) (i : Z) (st : Captured E)
  : list event * Captured E :=
  let '(err, nc) := Respond E m [] (var_nc st) in
  (EvRespond (Reply m) []
     :: match err with
        | Some e => [EvLog fmt_ack_failed [AStr (Reply m); AStr e]]
        | None => []
        end,
   {| var_i := i; var_err := err; var_nc := nc |}).

(** The closure [handler], lines 69-120, run to completion under [mu].
    Deferred calls run last, the acknowledgement before the unlock, so
    also on the early return of raw mode. *)
Definition handler (c : subCmd) (d : Delivery) (st : Captured E)
  : list event * Captured E :=
  let m := msg d in
  let i := wrap_int (var_i st + 1) in
  let info := msg_info m in
  let body := display c d i info in
  if jsAck c && bool_decide (is_Some info) then
    let '(acks, st') := acknowledge m i st in
    (body ++ acks, st')
  else
    (body, {| var_i := i; var_err := var_err st; var_nc := var_nc st |}).

(** The callbacks for a sequence of deliveries, in the order in which
    they take the lock; one list of events per invocation. *)
Fixpoint deliver (c : subCmd) (ds : list Delivery) (st : Captured E)
  : list (list event) * Captured E :=
  match ds with
  | [] => ([], st)
  | d :: ds' =>
      let '(evs, st') := handler c d st in
      let '(rest, st'') := deliver c ds' st' in
      (evs :: rest, st'')
  end.

(** ** The command *)

Record Run := {
  run_outcome : outcome;
  run_cmd : subCmd;                 (* the receiver after the call *)
  run_nuid : Nuid E;
  run_vars : option (Captured E);   (* i, err and nc once nc exists *)
  run_trace : list event
}.

(** Lines 54-58: the subject the command goes on with, or nothing when
    the configuration error is returned. *)
Definition resolve_subject (c : subCmd) (g : Nuid E)
  : option (subCmd * Nuid E * list event) :=
  if bool_decide (subject c = "") && inbox c then
    let '(s, g') := NewInbox E g in
    Some (set_subject s c, g', [EvNewInbox])
  else if bool_decide (subject c = "") then None
  else Some (c, g, []).

(** Lines 122-128. *)
Definition announce (c : subCmd) : list event :=
  if negb (raw c) || inbox c then
    if jsAck c then [EvLog fmt_subscribing_ack [AStr (subject c)]]
    else [EvLog fmt_subscribing [AStr (subject c)]]
  else [].

(** Lines 130-134; the result of either call is dropped. *)
Definition register (c : subCmd) (nc : Conn E) : list event * Conn E :=
  if bool_decide (queue c ≠ "") then
    ([EvQueueSubscribe (subject c) (queue c)],
     (QueueSubscribe E (subject c) (queue c) nc).2)
  else
    ([EvSubscribe (subject c)], (Subscribe E (subject c) nc).2).

(** [subCmd.subscribe], lines 53-145. *)
Definition subscribe (c : subCmd) (g : Nuid E) : Run :=
  match resolve_subject c g with
  | None =>
      {| run_outcome := Returned "subject is required";
         run_cmd := c; run_nuid := g; run_vars := None; run_trace := [] |}
  | Some (c, g, t0) =>
      match newNatsConn E "" with
      | inr err =>
          {| run_outcome := Returned err;
             run_cmd := c; run_nuid := g; run_vars := None;
             run_trace := t0 ++ [EvConnect ""] |}
      | inl nc =>
          let '(t1, nc) := register c nc in
          let nc := (Flush E nc).2 in
          let t := t0 ++ [EvConnect ""] ++ announce c ++ t1
                      ++ [EvFlush; EvLastError] in
          match LastError E nc with
          | Some err =>
              {| run_outcome := Returned err;
                 run_cmd := c; run_nuid := g;
                 run_vars := Some {| var_i := 0; var_err := Some err;
                                     var_nc := Close E nc |};
                 run_trace := t ++ [EvClose] |}
          | None =>
              {| run_outcome := Waiting;
                 run_cmd := c; run_nuid := g;
                 run_vars := Some {| var_i := 0; var_err := None;
                                     var_nc := nc |};
                 run_trace := t |}
          end
      end
  end.
End Command.

Arguments run_outcome {E} _.
Arguments run_cmd {E} _.
Arguments run_nuid {E} _.
Arguments run_vars {E} _.
Arguments run_trace {E} _.

(** ** A simulated environment

    A small, fully computable instance of [Env], used to run the command on
    concrete inputs.  A simulated connection answers every call with the
    result stored in it. *)
Module Sim.
Record conn := {
  sub_err : option error;       (* what Subscribe and QueueSubscribe return *)
  flush_err : option error;     (* what Flush returns *)
  last_err : option error;      (* what LastError returns *)
  respond_err : option error;   (* what Respond returns *)
  closed : bool
}.

Definition close (nc : conn) : conn :=
  {| sub_err := sub_err nc; flush_err := flush_err nc;
     last_err := last_err nc; respond_err := respond_err nc;
     closed := true |}.

Definition healthy : conn :=
  {| sub_err := None; flush_err := None; last_err := None;
     respond_err := None; closed := false |}.

Definition quote_mark : ascii := "034"%char.

(** Quoting without escapes: enough for subjects made of plain letters. *)
Definition quote (s : string) : string :=
  String quote_mark (s +:+ String quote_mark "").

Definition order_info : MsgInfo :=
  {| Stream := "ORDERS"; Consumer := "NEW"; Delivered := 1;
     ConsumerSequence := 7; StreamSequence := 42 |}.

(** A parser that recognises the acknowledgement subjects of one stream. *)
Definition parse (m : Msg) : option MsgInfo * option error :=
  if String.prefix "$JS.ACK.ORDERS.NEW." (Reply m)
  then (Some order_info, None)
  else (None, Some "message metadata does not appear to be an ACK").

Definition env (dial : conn + error) : Env :=
  {| Nuid := nat;
     Conn := conn;
     NewInbox := λ n, ("_INBOX." +:+ pretty n, S n);
     newNatsConn := λ _, dial;
     Subscribe := λ _ nc, (sub_err nc, nc);
     QueueSubscribe := λ _ _ nc, (sub_err nc, nc);
     Flush := λ nc, (flush_err nc, nc);
     LastError := last_err;
     Close := close;
     Respond := λ _ _ nc, (respond_err nc, nc);
     ParseJSMsgMetadata := parse;
     Quote := quote |}.

Definition start (nc : conn) : Captured (env (inl nc)) :=
  Build_Captured (env (inl nc)) 0 None nc.

Definition bytes (s : string) : list Byte.byte :=
  String.list_byte_of_string s.

Definition plain (subj payload : string) : Msg :=
  {| Subject := subj; Reply := ""; Header := ∅; Data := bytes payload |}.

Definition cmd (subj : string) : subCmd :=
  {| subject := subj; queue := ""; raw := false; jsAck := false;
     inbox := false |}.
End Sim.

(** ** Observations on traces *)

(** The index a callback displays: the first operand of its summary line,
    when its output starts with one. *)
Definition shown_index (evs : list event) : option Z :=
  match evs with
  | EvPrintf _ (AInt n :: _) :: _ => Some n
  | _ => None
  end.

Definition is_register (e : event) : bool :=
  match e with
  | EvSubscribe _ | EvQueueSubscribe _ _ => true
  | _ => false
  end.

Definition is_new_inbox (e : event) : bool :=
  match e with
  | EvNewInbox => true
  | _ => false
  end.

(** The call that registers the callback on subject [s] for command [c]. *)
Definition register_event (c : subCmd) (s : string) : event :=
  if bool_decide (queue c ≠ "") then EvQueueSubscribe s (queue c)
  else EvSubscribe s.

Definition set_raw (b : bool) (c : subCmd) : subCmd :=
  {| subject := subject c; queue := queue c; raw := b;
     jsAck := jsAck c; inbox := inbox c |}.

Definition set_err {E : Env} (e : option error) (st : Captured E)
  : Captured E :=
  {| var_i := var_i st; var_err := e; var_nc := var_nc st |}.

(** The connection as [LastError] sees it (line 137): after the
    registration and the flush. *)
Definition flushed (E : Env) (c : subCmd) (nc : Conn E) : Conn E :=
  (Flush E (register E c nc).2).2.

(** What [defer nc.Close()] adds when [subscribe] returns. *)
Definition closing (err : option error) : list event :=
  match err with
  | Some _ => [EvClose]
  | None => []
  end.

(** Lines 137-144 as a function of what [LastError] returned. *)
Definition verdict (err : option error) : outcome :=
  match err with
  | Some e => Returned e
  | None => Waiting
  end.

(** The environment [E] in which [Subscribe] and [QueueSubscribe] do to the
    connection what they do in [E] but return the error [f] gives. *)
Definition with_register_error (f : string → option error) (E : Env) : Env :=
  {| Nuid := Nuid E;
     Conn := Conn E;
     NewInbox := NewInbox E;
     newNatsConn := newNatsConn E;
     Subscribe := λ s nc, (f s, (Subscribe E s nc).2);
     QueueSubscribe := λ s q nc, (f s, (QueueSubscribe E s q nc).2);
     Flush := Flush E;
     LastError := LastError E;
     Close := Close E;
     Respond := Respond E;
     ParseJSMsgMetadata := ParseJSMsgMetadata E;
     Quote := Quote E |}.

(** Whether the callback schedules the acknowledgement (line 80). *)
Definition acked (E : Env) (c : subCmd) (m : Msg) : bool :=
  jsAck c && bool_decide (is_Some (msg_info E m)).

(** The log line of a failed acknowledgement (lines 83-85). *)
Definition ack_log (m : Msg) (err : option error) : list event :=
  match err with
  | Some e => [EvLog fmt_ack_failed [AStr (Reply m); AStr e]]
  | None => []
  end.

(** The value of the counter [i] held by each callback, in the order of
    the invocations. *)
Fixpoint indices (E : Env) (c : subCmd) (ds : list Delivery)
    (st : Captured E) : list Z :=
  match ds with
  | [] => []
  | d :: ds' =>
      let st' := (handler E c d st).2 in
      var_i st' :: indices E c ds' st'
  end.

(** The lines of a header as the handler's two nested loops write them
    when the outer one visits [entries] in this order. *)
Definition header_text (entries : list (string * list string)) : string :=
  foldr (λ '(h, vals) rest,
           foldr (λ val rest', h +:+ ": " +:+ val +:+ nl +:+ rest') rest vals)
        "" entries.

(** The payload as the specification words it: the payload text, with one
    line terminator added only when the text does not end with one. *)
Definition spec_payload_text (data : string) : string :=
  if HasSuffix data nl then data else data +:+ nl.

(** ** Whole runs *)

(** Whether lines 54-58 leave the command with a subject. *)
Definition has_subject (c : subCmd) : bool :=
  negb (bool_decide (subject c = "")) || inbox c.

(** Whether [newNatsConn] returns a connection (lines 60-63). *)
Definition dials (E : Env) : bool :=
  match newNatsConn E "" with
  | inl _ => true
  | inr _ => false
  end.

(** The events of lines 54-58. *)
Definition resolution (c : subCmd) : list event :=
  if bool_decide (subject c = "") then [EvNewInbox] else [].

(** Everything a sequence of callbacks does, in the order in which it
    happens. *)
Definition session (E : Env) (c : subCmd) (ds : list Delivery)
    (st : Captured E) : list event :=
  concat (deliver E c ds st).1.

(** The connection after the acknowledgements that the deliveries [ds]
    call for, sent one after the other. *)
Definition respond_all (E : Env) (c : subCmd) (ds : list Delivery)
    (nc : Conn E) : Conn E :=
  foldl (λ nc d, if acked E c (msg d) then (Respond E (msg d) [] nc).2 else nc)
        nc ds.

(** The number of values in the header of a message, over all names. *)
Definition value_count (m : Msg) : nat :=
  sum_list (length <$> (map_to_list (Header m)).*2).

(** The payloads of [ds] as raw mode prints them. *)
Definition raw_text (ds : list Delivery) : string :=
  foldr (λ d rest, string_of_bytes (Data (msg d)) +:+ nl +:+ rest) "" ds.

(** ** Callbacks during the set-up

    The callback is live as soon as it is registered (line 131 or 133),
    and the client library calls it from a goroutine of its own. *)

Definition set_nc {E : Env} (nc : Conn E) (st : Captured E) : Captured E :=
  {| var_i := var_i st; var_err := var_err st; var_nc := nc |}.

(** The deliveries whose callbacks complete while [subscribe] is between
    two of its statements, in the order in which they take the lock. *)
Record Schedule := {
  at_flush : list Delivery;    (* after the registration, before line 135 *)
  at_check : list Delivery;    (* after line 135, before line 137 *)
  at_test : list Delivery;     (* after line 137 has assigned err, before line 138 *)
  at_return : list Delivery    (* after the test of line 138, before line 139 *)
}.

Definition quiet : Schedule :=
  {| at_flush := []; at_check := []; at_test := []; at_return := [] |}.

(** How [subscribe] ends when callbacks may assign [err] meanwhile: the
    value it returns, which is that of [err] when line 139 reads it, or
    the final wait. *)
Inductive ending :=
| Returns (err : option error)
| Waits.

Definition ending_of (o : outcome) : ending :=
  match o with
  | Returned e => Returns (Some e)
  | Waiting => Waits
  end.

Record Live (E : Env) := {
  live_ending : ending;
  live_cmd : subCmd;
  live_nuid : Nuid E;
  live_vars : option (Captured E);
  live_trace : list event;               (* the calls of subscribe itself *)
  live_callbacks : list (list event)     (* those of the callbacks meanwhile *)
}.
Arguments live_ending {E} _.
Arguments live_cmd {E} _.
Arguments live_nuid {E} _.
Arguments live_vars {E} _.
Arguments live_trace {E} _.
Arguments live_callbacks {E} _.

(** [subCmd.subscribe], lines 53-145, with the callbacks of [s] completing
    where [s] puts them.  Line 137 assigns [err], line 138 tests it and
    line 139 reads it again; a callback that acknowledges assigns it too
    (line 82). *)
Definition subscribe_live (E : Env) (c : subCmd) (g : Nuid E) (s : Schedule)
  : Live E :=
  match resolve_subject E c g with
  | None =>
      {| live_ending := Returns (Some "subject is required");
         live_cmd := c; live_nuid := g; live_vars := None;
         live_trace := []; live_callbacks := [] |}
  | Some (c, g, t0) =>
      match newNatsConn E "" with
      | inr err =>
          {| live_ending := Returns (Some err);
             live_cmd := c; live_nuid := g; live_vars := None;
             live_trace := t0 ++ [EvConnect ""]; live_callbacks := [] |}
      | inl nc =>
          let st0 := {| var_i := 0; var_err := None;
                        var_nc := (register E c nc).2 |} in
          let r1 := deliver E c (at_flush s) st0 in
          let st1 := set_nc (Flush E (var_nc r1.2)).2 r1.2 in
          let r2 := deliver E c (at_check s) st1 in
          let st2 := set_err (LastError E (var_nc r2.2)) r2.2 in
          let r3 := deliver E c (at_test s) st2 in
          let t := t0 ++ [EvConnect ""] ++ announce c ++ (register E c nc).1
                      ++ [EvFlush; EvLastError] in
          match var_err r3.2 with
          | None =>
              {| live_ending := Waits;
                 live_cmd := c; live_nuid := g;
                 live_vars := Some r3.2;
                 live_trace := t;
                 live_callbacks := r1.1 ++ r2.1 ++ r3.1 |}
          | Some _ =>
              let r4 := deliver E c (at_return s) r3.2 in
              {| live_ending := Returns (var_err r4.2);
                 live_cmd := c; live_nuid := g;
                 live_vars := Some (set_nc (Close E (var_nc r4.2)) r4.2);
                 live_trace := t ++ [EvClose];
                 live_callbacks := r1.1 ++ r2.1 ++ r3.1 ++ r4.1 |}
          end
      end
  end.

(** The connection as [LastError] sees it at line 137 under the schedule
    [s]: after the registration, the acknowledgements of [at_flush s], the
    flush and the acknowledgements of [at_check s]. *)
Definition checked_conn (E : Env) (c : subCmd) (nc : Conn E) (s : Schedule)
  : Conn E :=
  respond_all E c (at_check s)
    (Flush E (respond_all E c (at_flush s) (register E c nc).2)).2.

(** Whether no callback of [s] assigns [err] between line 137 and line
    139. *)
Definition no_ack_in_window (E : Env) (c : subCmd) (s : Schedule) : Prop :=
  Forall (λ d, acked E c (msg d) = false) (at_test s ++ at_return s).

(** ** The inbox generator *)

Definition inbox_prefix : string := "_INBOX.".

(** Modelled from the spec: [nats.NewInbox], which belongs to the client
    library and is not under src/.  The specification asks of it a
    generated, non-empty, process-unique inbox-style subject; the model is
    the inbox prefix followed by the decimal of a counter that every call
    advances. *)
Definition NewInbox_model (n : nat) : string * nat :=
  (inbox_prefix +:+ pretty n, S n).

(** The state of the modelled generator after [k] more inboxes. *)
Definition generations (k : nat) (g : nat) : nat :=
  Nat.iter k (λ g, (NewInbox_model g).2) g.

(** The environment [E] with the modelled generator for its inboxes. *)
Definition with_model_inbox (E : Env) : Env :=
  {| Nuid := nat;
     Conn := Conn E;
     NewInbox := NewInbox_model;
     newNatsConn := newNatsConn E;
     Subscribe := Subscribe E;
     QueueSubscribe := QueueSubscribe E;
     Flush := Flush E;
     LastError := LastError E;
     Close := Close E;
     Respond := Respond E;
     ParseJSMsgMetadata := ParseJSMsgMetadata E;
     Quote := Quote E |}.

(** ** Sample inputs *)
Module Samples.
Import Sim.

Definition E0 : Env := env (inl healthy).

Definition hello : Delivery :=
  {| msg := plain "greetings" "hello"; visit := [] |}.

Definition raw_cmd : subCmd := set_raw true (cmd "greetings").

Definition inbox_cmd (subj : string) : subCmd :=
  {| subject := subj; queue := ""; raw := false; jsAck := false;
     inbox := true |}.

(** A payload that already ends with a line feed. *)
Definition ended : Delivery :=
  {| msg := plain "greetings" ("done" +:+ nl); visit := [] |}.

(** The message of the specification's header example. *)
Definition tagged : Msg :=
  {| Subject := "orders"; Reply := "";
     Header := {[ "A" := ["1"; "2"]; "B" := ["x"] ]};
     Data := bytes "body" |}.

Definition tagged_AB : Delivery :=
  {| msg := tagged; visit := [("A", ["1"; "2"]); ("B", ["x"])] |}.

Definition tagged_BA : Delivery :=
  {| msg := tagged; visit := [("B", ["x"]); ("A", ["1"; "2"])] |}.

(** A message delivered by a JetStream consumer, and one that asks for
    a reply on an ordinary inbox. *)
Definition order : Delivery :=
  {| msg := {| Subject := "orders.new";
               Reply := "$JS.ACK.ORDERS.NEW.1.42.7.0";
               Header := ∅; Data := bytes "order 42" |};
     visit := [] |}.

Definition question : Delivery :=
  {| msg := {| Subject := "help"; Reply := "_INBOX.abc";
               Header := ∅; Data := bytes "anyone?" |};
     visit := [] |}.

Definition ack_cmd : subCmd :=
  {| subject := "orders.new"; queue := ""; raw := false; jsAck := true;
     inbox := false |}.

(** A connection on which responses cannot be sent. *)
Definition deaf : conn :=
  {| sub_err := None; flush_err := None; last_err := None;
     respond_err := Some "nats: connection closed"; closed := false |}.

(** A connection on which the flush times out and no last error is
    recorded. *)
Definition stalled : conn :=
  {| sub_err := None; flush_err := Some "nats: timeout"; last_err := None;
     respond_err := None; closed := false |}.

(** A connection on which the registration is refused. *)
Definition refusing : conn :=
  {| sub_err := Some "nats: invalid subject"; flush_err := None;
     last_err := None; respond_err := None; closed := false |}.

(** A connection with a recorded error. *)
Definition broken : conn :=
  {| sub_err := None; flush_err := None;
     last_err := Some "nats: permissions violation";
     respond_err := None; closed := false |}.

(** One more message than the largest [int]. *)
Definition flood : list Delivery :=
  replicate (Z.to_nat (max_int + 1)) hello.
(** An environment in which no server can be reached. *)
Definition down : Env := env (inr "nats: no servers available for connection").

Definition queue_cmd : subCmd :=
  {| subject := "orders"; queue := "workers"; raw := false; jsAck := false;
     inbox := false |}.

Definition raw_inbox_cmd : subCmd :=
  {| subject := ""; queue := ""; raw := true; jsAck := false; inbox := true |}.

(** A message whose only header name has no value. *)
Definition bare : Delivery :=
  {| msg := {| Subject := "orders"; Reply := "";
               Header := {[ "Trace" := [] ]}; Data := bytes "body" |};
     visit := [("Trace", [])] |}.

(** A message without reply subject, and a parser that would find
    metadata in any message. *)
Definition eager : Env :=
  {| Nuid := nat;
     Conn := conn;
     NewInbox := λ n, ("_INBOX." +:+ pretty n, S n);
     newNatsConn := λ _, inl healthy;
     Subscribe := λ _ nc, (None, nc);
     QueueSubscribe := λ _ _ nc, (None, nc);
     Flush := λ nc, (None, nc);
     LastError := last_err;
     Close := close;
     Respond := λ _ _ nc, (respond_err nc, nc);
     ParseJSMsgMetadata := λ _, (Some order_info, None);
     Quote := quote |}.
(** One acknowledged order completing between line 137 and line 138. *)
Definition order_at_test : Schedule :=
  {| at_flush := []; at_check := []; at_test := [order]; at_return := [] |}.

(** A message that calls for no acknowledgement completing there. *)
Definition question_at_test : Schedule :=
  {| at_flush := [hello]; at_check := []; at_test := [question];
     at_return := [] |}.
End Samples.

(** * Properties *)

(** ** The counter *)

Lemma max_int_val : max_int = 9223372036854775807.
Proof. reflexivity. Qed.

Lemma min_int_val : min_int = -9223372036854775808.
Proof. reflexivity. Qed.

Lemma pow_int_bits : 2 ^ int_bits = 2 * 2 ^ (int_bits - 1).
Proof. reflexivity. Qed.

Lemma wrap_int_id x : min_int ≤ x ≤ max_int → wrap_int x = x.
Proof.
  unfold min_int, max_int, wrap_int. rewrite pow_int_bits.
  intros Hx. rewrite Z.mod_small; lia.
Qed.

Lemma wrap_int_add_l a b : wrap_int (wrap_int a + b) = wrap_int (a + b).
Proof.
  unfold wrap_int. f_equal.
  replace ((a + 2 ^ (int_bits - 1)) mod 2 ^ int_bits - 2 ^ (int_bits - 1)
           + b + 2 ^ (int_bits - 1))
    with ((a + 2 ^ (int_bits - 1)) mod 2 ^ int_bits + b) by lia.
  rewrite Zplus_mod_idemp_l. f_equal. lia.
Qed.

Lemma wrap_int_overflow : wrap_int (max_int + 1) = min_int.
Proof. reflexivity. Qed.

Section CounterFacts.
Context (E : Env).
Implicit Types (c : subCmd) (d : Delivery) (st : Captured E).

Lemma handler_counter c d st :
  var_i (handler E c d st).2 = wrap_int (var_i st + 1).
Proof.
  unfold handler, acknowledge.
  destruct (jsAck c && _); [|reflexivity].
  destruct (Respond E _ _ _); reflexivity.
Qed.

Lemma handler_shown_index c d st :
  shown_index (handler E c d st).1
  = if raw c then None else Some (wrap_int (var_i st + 1)).
Proof.
  unfold handler, acknowledge, display, summary.
  destruct (raw c), (jsAck c && _); repeat case_match; reflexivity.
Qed.

Lemma deliver_cons c d ds st :
  deliver E c (d :: ds) st
  = ((handler E c d st).1 :: (deliver E c ds (handler E c d st).2).1,
     (deliver E c ds (handler E c d st).2).2).
Proof.
  simpl. destruct (handler E c d st) as [evs st']. simpl.
  destruct (deliver E c ds st') as [rest st'']. reflexivity.
Qed.

Lemma deliver_length c ds st : length (deliver E c ds st).1 = length ds.
Proof.
  revert st. induction ds as [|d ds IH]; intros st; [reflexivity|].
  rewrite deliver_cons. simpl. by rewrite IH.
Qed.

Lemma seqZ_succ_shift (n : nat) :
  seqZ 1 (Z.of_nat (S n)) = 1 :: (Z.add 1 <$> seqZ 1 (Z.of_nat n)).
Proof.
  rewrite Nat2Z.inj_succ, seqZ_cons by lia.
  rewrite fmap_add_seqZ. do 2 f_equal. lia.
Qed.

(** Without any bound: the [k]-th callback holds [k], wrapped to [int]. *)
Lemma indices_wrap c ds st :
  indices E c ds st
  = (λ k, wrap_int (var_i st + k)) <$> seqZ 1 (Z.of_nat (length ds)).
Proof.
  revert st. induction ds as [|d ds IH]; intros st; [reflexivity|].
  cbn [indices length]. rewrite seqZ_succ_shift, fmap_cons, IH.
  rewrite handler_counter. f_equal. rewrite <- list_fmap_compose.
  apply list_fmap_ext. intros _ k _. simpl.
  rewrite wrap_int_add_l. f_equal. lia.
Qed.

Lemma shown_wrap c ds st :
  shown_index <$> (deliver E c ds st).1
  = (λ k, if raw c then None else Some (wrap_int (var_i st + k)))
      <$> seqZ 1 (Z.of_nat (length ds)).
Proof.
  revert st. induction ds as [|d ds IH]; intros st; [reflexivity|].
  rewrite deliver_cons. cbn [fst length].
  rewrite seqZ_succ_shift, !fmap_cons, IH, handler_shown_index.
  f_equal. rewrite <- list_fmap_compose.
  apply list_fmap_ext. intros _ k _. simpl. destruct (raw c); [done|].
  rewrite handler_counter, wrap_int_add_l. do 2 f_equal. lia.
Qed.
End CounterFacts.

Lemma fmap_eq_elem {A B} (f g : A → B) (l : list A) x :
  f <$> l = g <$> l → x ∈ l → f x = g x.
Proof.
  induction l as [|a l IH]; intros Heq Hx; [by apply elem_of_nil in Hx|].
  rewrite !fmap_cons in Heq. injection Heq as Ha Hl.
  apply elem_of_cons in Hx as [->|Hx]; auto.
Qed.

Lemma subscribe_vars_zero E c g st :
  run_vars (subscribe E c g) = Some st → var_i st = 0.
Proof.
  unfold subscribe. repeat case_match; simpl; intros; simplify_eq; done.
Qed.

(** C1, as stated, does not hold.  In raw mode a callback prints the
    payload only, so no index is displayed for its message; and the counter
    is a Go [int], so the message after the [max_int]-th is given the index
    [min_int]. *)
Lemma displayed_indices_counterexample :
  shown_index <$> (deliver Samples.E0 Samples.raw_cmd [Samples.hello]
                     (Sim.start Sim.healthy)).1
    ≠ Some <$> seqZ 1 1
  ∧ shown_index <$> (deliver Samples.E0 (Sim.cmd "greetings") Samples.flood
                       (Sim.start Sim.healthy)).1
    ≠ Some <$> seqZ 1 (Z.of_nat (length Samples.flood)).
Proof.
  split; [vm_compute; discriminate|].
  rewrite shown_wrap. unfold Samples.flood. rewrite length_replicate.
  rewrite Z2Nat.id by (rewrite max_int_val; lia).
  change (raw (Sim.cmd "greetings")) with false.
  change (var_i (Sim.start Sim.healthy)) with 0.
  intros Heq. apply fmap_eq_elem with (x := max_int + 1) in Heq.
  - rewrite Z.add_0_l, wrap_int_overflow in Heq. injection Heq.
    rewrite min_int_val, max_int_val. lia.
  - apply elem_of_seqZ. rewrite max_int_val. lia.
Qed.

(** C1 (amended): the counter starts at zero when [subscribe] has set up
    the callback; for any sequence of at most [max_int] deliveries the
    [k]-th callback to take the lock holds the index [k], so the indices are
    exactly 1..N without duplicates or gaps; outside raw mode that index is
    the one printed in the summary line of the message, in raw mode no index
    is printed. *)
Theorem displayed_indices E c g ds st :
  run_vars (subscribe E c g) = Some st →
  Z.of_nat (length ds) ≤ max_int →
  let c' := run_cmd (subscribe E c g) in
  var_i st = 0
  ∧ indices E c' ds st = seqZ 1 (Z.of_nat (length ds))
  ∧ NoDup (indices E c' ds st)
  ∧ shown_index <$> (deliver E c' ds st).1
    = if raw c' then replicate (length ds) None
      else Some <$> seqZ 1 (Z.of_nat (length ds)).
Proof.
  intros Hst Hlen c'. pose proof (subscribe_vars_zero _ _ _ _ Hst) as Hi.
  assert (Hk : ∀ k, k ∈ seqZ 1 (Z.of_nat (length ds)) →
                    wrap_int (var_i st + k) = k).
  { intros k [H1 H2]%elem_of_seqZ. rewrite Hi, Z.add_0_l.
    apply wrap_int_id. rewrite min_int_val. lia. }
  assert (Hidx : indices E c' ds st = seqZ 1 (Z.of_nat (length ds))).
  { rewrite indices_wrap. rewrite <- (list_fmap_id (seqZ _ _)) at 2.
    apply list_fmap_ext. intros j k Hjk. apply Hk.
    by eapply list_elem_of_lookup_2. }
  split_and!; [done|done| |].
  - rewrite Hidx. apply NoDup_seqZ.
  - rewrite shown_wrap. destruct (raw c').
    + rewrite <- (Nat2Z.id (length ds)) at 2.
      rewrite <- (length_seqZ 1 (Z.of_nat (length ds))).
      by apply const_fmap.
    + apply list_fmap_ext. intros j k Hjk. simpl. f_equal. apply Hk.
      by eapply list_elem_of_lookup_2.
Qed.

Lemma displayed_indices_witness :
  run_vars (subscribe Samples.E0 (Sim.cmd "greetings") 0%nat)
    = Some (Sim.start Sim.healthy)
  ∧ Z.of_nat (length [Samples.hello; Samples.hello]) ≤ max_int
  ∧ indices Samples.E0 (Sim.cmd "greetings") [Samples.hello; Samples.hello]
      (Sim.start Sim.healthy) = [1; 2]
  ∧ shown_index <$> (deliver Samples.E0 (Sim.cmd "greetings")
                       [Samples.hello; Samples.hello]
                       (Sim.start Sim.healthy)).1 = [Some 1; Some 2].
Proof.
  assert (Hlen : Z.of_nat (length [Samples.hello; Samples.hello]) ≤ max_int)
    by (rewrite max_int_val; simpl; lia).
  split; [reflexivity|]. split; [exact Hlen|].
  destruct (displayed_indices Samples.E0 (Sim.cmd "greetings") 0%nat
              [Samples.hello; Samples.hello] (Sim.start Sim.healthy)
              eq_refl Hlen) as (_ & Hidx & _ & Hshown).
  split; [exact Hidx|exact Hshown].
Defined.

(** ** The callback's events *)

Section HandlerFacts.
Context (E : Env).
Implicit Types (c : subCmd) (d : Delivery) (m : Msg) (st : Captured E).

Lemma acknowledge_events m i st :
  (acknowledge E m i st).1
  = EvRespond (Reply m) [] :: ack_log m (Respond E m [] (var_nc st)).1.
Proof. unfold acknowledge. by destruct (Respond E m [] (var_nc st)). Qed.

Lemma handler_events c d st :
  (handler E c d st).1
  = display c d (wrap_int (var_i st + 1)) (msg_info E (msg d))
    ++ (if acked E c (msg d)
        then EvRespond (Reply (msg d)) []
             :: ack_log (msg d) (Respond E (msg d) [] (var_nc st)).1
        else []).
Proof.
  unfold handler, acked. destruct (jsAck c && _).
  - rewrite <- (acknowledge_events _ (wrap_int (var_i st + 1))).
    by destruct (acknowledge E (msg d) _ st).
  - by rewrite app_nil_r.
Qed.

Lemma summary_stdout c m i info : Forall is_stdout (summary c m i info).
Proof.
  unfold summary. repeat case_match; repeat constructor.
Qed.

Lemma headers_stdout d : Forall is_stdout (headers d).
Proof.
  unfold headers. case_bool_decide; [|constructor].
  apply Forall_app. split; [|repeat constructor].
  induction (visit d) as [|[h vals] l IH]; [constructor|].
  simpl. apply Forall_app. split; [|exact IH].
  induction vals; constructor; [exact I|assumption].
Qed.

Lemma payload_stdout m : Forall is_stdout (payload m).
Proof. unfold payload. case_match; repeat constructor. Qed.

Lemma display_stdout c d i info : Forall is_stdout (display c d i info).
Proof.
  unfold display. destruct (raw c); [repeat constructor|].
  rewrite !Forall_app.
  eauto using summary_stdout, headers_stdout, payload_stdout.
Qed.

Lemma ack_log_is_log m err : Forall is_log (ack_log m err).
Proof. destruct err; repeat constructor. Qed.

Lemma display_no_respond c d i info r b :
  EvRespond r b ∉ display c d i info.
Proof.
  intros Hin. pose proof (display_stdout c d i info) as Hall.
  rewrite Forall_forall in Hall. by apply Hall in Hin.
Qed.

Lemma ack_log_no_respond m err r b : EvRespond r b ∉ ack_log m err.
Proof.
  intros Hin. pose proof (ack_log_is_log m err) as Hall.
  rewrite Forall_forall in Hall. by apply Hall in Hin.
Qed.

Lemma respond_in_handler c d st r b :
  EvRespond r b ∈ (handler E c d st).1
  ↔ acked E c (msg d) = true ∧ r = Reply (msg d) ∧ b = [].
Proof.
  rewrite handler_events, elem_of_app. split.
  - intros [Hin|Hin]; [destruct (display_no_respond _ _ _ _ _ _ Hin)|].
    destruct (acked E c (msg d)); [|by apply elem_of_nil in Hin].
    apply elem_of_cons in Hin as [Heq|Hin];
      [by simplify_eq|destruct (ack_log_no_respond _ _ _ _ Hin)].
  - intros (-> & -> & ->). right. apply elem_of_cons. by left.
Qed.

Lemma acked_spec c m :
  acked E c m = true ↔ jsAck c = true ∧ is_Some (msg_info E m).
Proof.
  unfold acked. rewrite andb_true_iff, bool_decide_eq_true. done.
Qed.
End HandlerFacts.

(** C2: a callback sends the empty response to the reply subject of its
    message exactly when acknowledgement is enabled and metadata was parsed
    from the reply subject; every response it sends is that one; the
    response comes after everything the callback prints, followed only by
    the log line of a failed send; the decision is the same in raw mode and
    outside it; and nothing is sent when the parser returns no metadata. *)
Theorem ack_iff_enabled_and_parsed E c d st :
  let m := msg d in
  let evs := (handler E c d st).1 in
  (EvRespond (Reply m) [] ∈ evs
   ↔ jsAck c = true ∧ is_Some (msg_info E m))
  ∧ (∀ r b, EvRespond r b ∈ evs → r = Reply m ∧ b = [])
  ∧ (∃ out logs,
       evs = out ++ (if acked E c m then EvRespond (Reply m) [] :: logs else [])
       ∧ out = display c d (wrap_int (var_i st + 1)) (msg_info E m)
       ∧ Forall is_stdout out ∧ Forall is_log logs)
  ∧ (∀ b, EvRespond (Reply m) [] ∈ (handler E (set_raw b c) d st).1
          ↔ EvRespond (Reply m) [] ∈ evs)
  ∧ ((ParseJSMsgMetadata E m).1 = None → ∀ r b, EvRespond r b ∉ evs).
Proof.
  intros m evs. subst evs m. split_and!.
  - rewrite respond_in_handler, acked_spec.
    split; [by intros (Hack & _ & _)|by intros Hack].
  - intros r b Hin. apply respond_in_handler in Hin as (_ & -> & ->). done.
  - eexists _, _. split; [apply handler_events|].
    split; [reflexivity|]. split; [apply display_stdout|apply ack_log_is_log].
  - intros b. rewrite !respond_in_handler. done.
  - intros Hnone r b Hin. apply respond_in_handler in Hin as [Hack _].
    apply acked_spec in Hack as [_ [info Hinfo]].
    unfold msg_info in Hinfo. case_bool_decide; congruence.
Qed.

(** ** The command up to its final wait *)

Section SubscribeFacts.
Context (E : Env).
Implicit Types (c : subCmd) (g : Nuid E) (nc : Conn E).

Lemma resolve_subject_inbox c g :
  subject c = "" → inbox c = true →
  resolve_subject E c g
  = Some (set_subject (NewInbox E g).1 c, (NewInbox E g).2, [EvNewInbox]).
Proof.
  intros Hs Hi. unfold resolve_subject. rewrite Hs, Hi. simpl.
  by destruct (NewInbox E g).
Qed.

Lemma resolve_subject_missing c g :
  subject c = "" → inbox c = false → resolve_subject E c g = None.
Proof. intros Hs Hi. unfold resolve_subject. by rewrite Hs, Hi. Qed.

Lemma resolve_subject_given c g :
  subject c ≠ "" → resolve_subject E c g = Some (c, g, []).
Proof.
  intros Hs. unfold resolve_subject.
  rewrite bool_decide_eq_false_2 by done. reflexivity.
Qed.

Lemma register_events c nc :
  (register E c nc).1 = [register_event c (subject c)].
Proof. unfold register, register_event. by case_bool_decide. Qed.

Lemma subscribe_dial_failed c g c' g' t0 err :
  resolve_subject E c g = Some (c', g', t0) →
  newNatsConn E "" = inr err →
  subscribe E c g
  = {| run_outcome := Returned err; run_cmd := c'; run_nuid := g';
       run_vars := None; run_trace := t0 ++ [EvConnect ""] |}.
Proof. intros Hr Hd. unfold subscribe. by rewrite Hr, Hd. Qed.

Lemma subscribe_connected c g c' g' t0 nc :
  resolve_subject E c g = Some (c', g', t0) →
  newNatsConn E "" = inl nc →
  let r := subscribe E c g in
  let err := LastError E (flushed E c' nc) in
  run_outcome r = verdict err
  ∧ run_cmd r = c'
  ∧ run_nuid r = g'
  ∧ run_trace r
    = t0 ++ [EvConnect ""] ++ announce c'
         ++ [register_event c' (subject c')]
         ++ [EvFlush; EvLastError] ++ closing err.
Proof.
  intros Hr Hd. unfold subscribe, flushed. rewrite Hr, Hd.
  pose proof (register_events c' nc) as Hreg.
  destruct (register E c' nc) as [t1 nc1]. simpl in *. subst t1.
  destruct (LastError E (Flush E nc1).2); simpl; split_and!; try done.
  rewrite <- app_assoc. simpl. by rewrite <- app_assoc.
Qed.
End SubscribeFacts.

Lemma announce_is_log c e : e ∈ announce c → is_log e.
Proof.
  unfold announce. repeat case_match; intros Hin;
    try (by apply elem_of_nil in Hin);
    apply list_elem_of_singleton in Hin; by subst e.
Qed.

Lemma closing_is_close err e : e ∈ closing err → e = EvClose.
Proof.
  destruct err; simpl; intros Hin;
    [by apply list_elem_of_singleton in Hin|by apply elem_of_nil in Hin].
Qed.

Lemma register_event_is_register c s : is_register (register_event c s).
Proof. unfold register_event. by case_bool_decide. Qed.

Lemma register_event_set_subject c s s' :
  register_event (set_subject s' c) s = register_event c s.
Proof. reflexivity. Qed.

(** The events of a run that got its connection, sorted by kind. *)
Lemma connected_trace_elem c t0 err e :
  e ∈ t0 ++ [EvConnect ""] ++ announce c
         ++ [register_event c (subject c)]
         ++ [EvFlush; EvLastError] ++ closing err →
  e ∈ t0 ∨ e = register_event c (subject c)
  ∨ (is_register e = false ∧ is_new_inbox e = false).
Proof.
  rewrite !elem_of_app, !elem_of_cons.
  intros [?|[[->|[]%elem_of_nil]|[Hlog|[[->|[]%elem_of_nil]|[H|H]]]]]; auto.
  - right; right. apply announce_is_log in Hlog. by destruct e.
  - right; right. destruct H as [->|[->|[]%elem_of_nil]]; done.
  - right; right. apply closing_is_close in H. by subst e.
Qed.

Lemma connected_trace_registers c t0 err :
  register_event c (subject c)
  ∈ t0 ++ [EvConnect ""] ++ announce c
       ++ [register_event c (subject c)]
       ++ [EvFlush; EvLastError] ++ closing err.
Proof. rewrite !elem_of_app, !elem_of_cons. auto 10. Qed.

(** C3: with an empty subject and the inbox flag unset, [subscribe]
    returns the configuration error at once: the trace of calls is empty
    (no connection attempt, no registration, no inbox generated), no
    connection exists, and the command and the generator are unchanged. *)
Theorem missing_subject_is_rejected E c g :
  subject c = "" → inbox c = false →
  subscribe E c g
  = {| run_outcome := Returned "subject is required";
       run_cmd := c; run_nuid := g; run_vars := None; run_trace := [] |}.
Proof.
  intros Hs Hi. unfold subscribe.
  by rewrite (resolve_subject_missing E c g Hs Hi).
Qed.

Lemma missing_subject_is_rejected_witness :
  subject (Sim.cmd "") = "" ∧ inbox (Sim.cmd "") = false
  ∧ run_outcome (subscribe Samples.E0 (Sim.cmd "") 0%nat)
    = Returned "subject is required"
  ∧ run_trace (subscribe Samples.E0 (Sim.cmd "") 0%nat) = [].
Proof.
  split; [reflexivity|]. split; [reflexivity|].
  rewrite (missing_subject_is_rejected Samples.E0 (Sim.cmd "") 0%nat
             eq_refl eq_refl).
  split; reflexivity.
Defined.

(** The trace of any run, by the way the subject was resolved. *)
Lemma subscribe_trace_elem E c g e :
  e ∈ run_trace (subscribe E c g) →
  (e = EvNewInbox ∧ subject c = "" ∧ inbox c = true)
  ∨ e = register_event c (subject (run_cmd (subscribe E c g)))
  ∨ (is_register e = false ∧ is_new_inbox e = false).
Proof.
  destruct (decide (subject c = "")) as [Hs|Hs].
  - destruct (inbox c) eqn:Hi.
    + pose proof (resolve_subject_inbox E c g Hs Hi) as Hr.
      destruct (newNatsConn E "") as [nc|err] eqn:Hd.
      * destruct (subscribe_connected E _ _ _ _ _ _ Hr Hd)
          as (_ & -> & _ & ->).
        intros [Hin|[->|?]]%connected_trace_elem; auto.
        apply list_elem_of_singleton in Hin. auto.
      * rewrite (subscribe_dial_failed E _ _ _ _ _ _ Hr Hd). simpl.
        rewrite elem_of_cons, list_elem_of_singleton. intros [->| ->]; auto.
    + unfold subscribe. rewrite (resolve_subject_missing E c g Hs Hi). simpl.
      by intros []%elem_of_nil.
  - pose proof (resolve_subject_given E c g Hs) as Hr.
    destruct (newNatsConn E "") as [nc|err] eqn:Hd.
    + destruct (subscribe_connected E _ _ _ _ _ _ Hr Hd)
        as (_ & -> & _ & ->).
      intros [[]%elem_of_nil|[->|?]]%connected_trace_elem; auto.
    + rewrite (subscribe_dial_failed E _ _ _ _ _ _ Hr Hd). simpl.
      rewrite list_elem_of_singleton. intros ->; auto.
Qed.

Lemma subscribe_registers E c g nc :
  is_Some (resolve_subject E c g) →
  newNatsConn E "" = inl nc →
  register_event c (subject (run_cmd (subscribe E c g)))
  ∈ run_trace (subscribe E c g).
Proof.
  intros [[[c' g'] t0] Hr] Hd.
  destruct (subscribe_connected E _ _ _ _ _ _ Hr Hd) as (_ & -> & _ & ->).
  replace (register_event c (subject c'))
    with (register_event c' (subject c')).
  { apply connected_trace_registers. }
  unfold resolve_subject in Hr. repeat case_match; by simplify_eq.
Qed.

(** C9: when a subject is given and the inbox flag is set as well, the
    command keeps the given subject, leaves the generator alone and never
    calls [NewInbox]; every registration in the trace is on the given
    subject, and there is one whenever the connection is obtained.  An
    inbox is generated by no run whose subject is not empty. *)
Theorem explicit_subject_wins E c g :
  subject c ≠ "" → inbox c = true →
  let r := subscribe E c g in
  run_cmd r = c
  ∧ run_nuid r = g
  ∧ (EvNewInbox ∉ run_trace r)
  ∧ (∀ e, e ∈ run_trace r → is_register e →
          e = register_event c (subject c))
  ∧ (∀ nc, newNatsConn E "" = inl nc →
           register_event c (subject c) ∈ run_trace r)
  ∧ (∀ c0 g0, EvNewInbox ∈ run_trace (subscribe E c0 g0) →
              subject c0 = "").
Proof.
  intros Hs Hi r. subst r.
  pose proof (resolve_subject_given E c g Hs) as Hr.
  assert (Hcmd : run_cmd (subscribe E c g) = c ∧ run_nuid (subscribe E c g) = g).
  { destruct (newNatsConn E "") as [nc|err] eqn:Hd.
    - by destruct (subscribe_connected E _ _ _ _ _ _ Hr Hd) as (_ & -> & -> & _).
    - by rewrite (subscribe_dial_failed E _ _ _ _ _ _ Hr Hd). }
  destruct Hcmd as [Hcmd Hg]. split_and!; [done|done| | | |].
  - intros [(_ & Hs' & _)|[Heq|[_ Hf]]]%subscribe_trace_elem; [done| |done].
    unfold register_event in Heq. by case_bool_decide.
  - intros e [(-> & _)|[->|[Hf _]]]%subscribe_trace_elem Hreg;
      [done|by rewrite Hcmd|by rewrite Hf in Hreg].
  - intros nc Hd.
    pose proof (subscribe_registers E c g nc) as Hin. rewrite Hcmd in Hin.
    apply Hin; [by rewrite Hr|done].
  - intros c0 g0 [(_ & Hs0 & _)|[Heq|[_ Hf]]]%subscribe_trace_elem;
      [done| |done].
    unfold register_event in Heq. by case_bool_decide.
Qed.

Lemma inbox_run E c g :
  subject c = "" → inbox c = true →
  subject (run_cmd (subscribe E c g)) = (NewInbox E g).1
  ∧ run_nuid (subscribe E c g) = (NewInbox E g).2
  ∧ ∃ t, run_trace (subscribe E c g) = EvNewInbox :: t ∧ EvNewInbox ∉ t.
Proof.
  intros Hs Hi. pose proof (resolve_subject_inbox E c g Hs Hi) as Hr.
  destruct (newNatsConn E "") as [nc|err] eqn:Hd.
  - destruct (subscribe_connected E _ _ _ _ _ _ Hr Hd)
      as (_ & -> & -> & ->).
    split_and!; [done|done|]. eexists. split; [reflexivity|].
    intros [[]%elem_of_nil|[Heq|[_ Hf]]]%(connected_trace_elem _ []);
      [|done].
    unfold register_event in Heq. by case_bool_decide.
  - rewrite (subscribe_dial_failed E _ _ _ _ _ _ Hr Hd). simpl.
    split_and!; [done|done|]. eexists. split; [reflexivity|].
    by intros ?%list_elem_of_singleton.
Qed.

Lemma generations_add k g : generations k g = (k + g)%nat.
Proof.
  unfold generations. induction k as [|k IH]; [reflexivity|].
  rewrite Nat.iter_succ, IH. reflexivity.
Qed.

Lemma NewInbox_model_nonempty g : (NewInbox_model g).1 ≠ "".
Proof. discriminate. Qed.

Lemma NewInbox_model_inj g1 g2 :
  (NewInbox_model g1).1 = (NewInbox_model g2).1 → g1 = g2.
Proof.
  unfold NewInbox_model. simpl. intros Heq.
  apply (inj (String.app inbox_prefix)) in Heq.
  by apply (inj pretty) in Heq.
Qed.

(** C4: with the inbox flag set and no subject, the command's subject
    becomes the string [NewInbox] returns, generated by one call; every
    registration in the trace is on that subject, and there is one whenever
    the connection is obtained.  With the generator modelled from the
    specification that subject is not empty, and it is unique: the
    generator has advanced when the run is over, and a run started after
    any number of further inboxes gets another subject. *)
Theorem inbox_subject_is_generated E c g :
  subject c = "" → inbox c = true →
  let r := subscribe E c g in
  let s := (NewInbox E g).1 in
  subject (run_cmd r) = s
  ∧ run_nuid r = (NewInbox E g).2
  ∧ (∃ t, run_trace r = EvNewInbox :: t ∧ EvNewInbox ∉ t)
  ∧ (∀ e, e ∈ run_trace r → is_register e → e = register_event c s)
  ∧ (∀ nc, newNatsConn E "" = inl nc → register_event c s ∈ run_trace r)
  ∧ (∀ n k : nat,
       let r1 := subscribe (with_model_inbox E) c n in
       let r2 := subscribe (with_model_inbox E) c
                   (generations k (run_nuid r1)) in
       subject (run_cmd r1) ≠ ""
       ∧ subject (run_cmd r2) ≠ subject (run_cmd r1)).
Proof.
  intros Hs Hi r s. subst r s.
  destruct (inbox_run E c g Hs Hi) as (Hsub & Hg & Ht).
  split_and!; try done.
  - intros e [(-> & _)|[->|[Hf _]]]%subscribe_trace_elem Hreg;
      [done|by rewrite Hsub|by rewrite Hf in Hreg].
  - intros nc Hd. rewrite <- Hsub.
    apply (subscribe_registers E c g nc); [|done].
    by rewrite (resolve_subject_inbox E c g Hs Hi).
  - intros n k r1 r2. subst r1 r2.
    destruct (inbox_run (with_model_inbox E) c n Hs Hi) as (Hs1 & Hg1 & _).
    change ((NewInbox (with_model_inbox E) n).2) with (S n) in Hg1.
    rewrite Hg1, generations_add.
    destruct (inbox_run (with_model_inbox E) c (k + S n)%nat Hs Hi)
      as (Hs2 & _).
    rewrite Hs1, Hs2. split; [apply NewInbox_model_nonempty|].
    intros Heq%NewInbox_model_inj. lia.
Qed.

Lemma explicit_subject_wins_witness :
  subject (Samples.inbox_cmd "orders") ≠ ""
  ∧ inbox (Samples.inbox_cmd "orders") = true
  ∧ run_cmd (subscribe Samples.E0 (Samples.inbox_cmd "orders") 0%nat)
    = Samples.inbox_cmd "orders"
  ∧ EvSubscribe "orders"
    ∈ run_trace (subscribe Samples.E0 (Samples.inbox_cmd "orders") 0%nat).
Proof.
  assert (Hs : subject (Samples.inbox_cmd "orders") ≠ "") by discriminate.
  split; [exact Hs|]. split; [reflexivity|].
  destruct (explicit_subject_wins Samples.E0 (Samples.inbox_cmd "orders")
              0%nat Hs eq_refl) as (Hcmd & _ & _ & _ & Hreg & _).
  split; [exact Hcmd|]. exact (Hreg Sim.healthy eq_refl).
Defined.

Lemma inbox_subject_is_generated_witness :
  subject (Samples.inbox_cmd "") = ""
  ∧ inbox (Samples.inbox_cmd "") = true
  ∧ subject (run_cmd (subscribe Samples.E0 (Samples.inbox_cmd "") 7%nat))
    = "_INBOX.7"
  ∧ EvSubscribe "_INBOX.7"
    ∈ run_trace (subscribe Samples.E0 (Samples.inbox_cmd "") 7%nat)
  ∧ subject (run_cmd (subscribe (with_model_inbox Samples.E0)
                        (Samples.inbox_cmd "") 8%nat))
    ≠ subject (run_cmd (subscribe (with_model_inbox Samples.E0)
                          (Samples.inbox_cmd "") 7%nat)).
Proof.
  split; [reflexivity|]. split; [reflexivity|].
  destruct (inbox_subject_is_generated Samples.E0 (Samples.inbox_cmd "")
              7%nat eq_refl eq_refl) as (Hsub & _ & _ & _ & Hreg & Huniq).
  split; [exact Hsub|]. split; [exact (Hreg Sim.healthy eq_refl)|].
  exact (proj2 (Huniq 7%nat 0%nat)).
Defined.

(** ** After the registration *)

(** C7, as stated, does not hold: on a connection whose flush fails while
    no last error is recorded, the command registers, flushes, finds no
    last error and goes on to wait; the error of the flush is lost. *)
Lemma flush_failure_counterexample :
  let E := Sim.env (inl Samples.stalled) in
  let r := subscribe E (Sim.cmd "orders") 0%nat in
  (Flush E (register E (Sim.cmd "orders") Samples.stalled).2).1
    = Some "nats: timeout"
  ∧ run_trace r
    = [EvConnect ""; EvLog fmt_subscribing [AStr "orders"];
       EvSubscribe "orders"; EvFlush; EvLastError]
  ∧ run_outcome r = Waiting
  ∧ (∀ e, run_outcome r ≠ Returned e).
Proof. split_and!; try reflexivity. intros e. discriminate. Qed.

Lemma connected_run_shape E c g c' g' t0 nc :
  resolve_subject E c g = Some (c', g', t0) →
  newNatsConn E "" = inl nc →
  run_outcome (subscribe E c g) = verdict (LastError E (flushed E c' nc))
  ∧ run_trace (subscribe E c g)
    = (t0 ++ [EvConnect ""] ++ announce c')
      ++ [register_event c' (subject c'); EvFlush; EvLastError]
      ++ closing (LastError E (flushed E c' nc)).
Proof.
  intros Hr Hd.
  destruct (subscribe_connected E _ _ _ _ _ _ Hr Hd) as (-> & _ & _ & ->).
  split; [reflexivity|]. by rewrite <- !app_assoc.
Qed.

(** C10: the error returned by [Subscribe] or [QueueSubscribe] is
    discarded.  Whatever error the registration returns, the run is the
    same: same outcome, same calls in the same order, same subject.  After
    the registration the command always flushes and consults [LastError],
    and the outcome is decided by that last error alone. *)
Theorem registration_error_is_dropped E f c g :
  let r := subscribe E c g in
  let r' := subscribe (with_register_error f E) c g in
  run_outcome r' = run_outcome r
  ∧ run_trace r' = run_trace r
  ∧ run_cmd r' = run_cmd r
  ∧ (∀ c' g' t0 nc,
       resolve_subject E c g = Some (c', g', t0) →
       newNatsConn E "" = inl nc →
       run_outcome r = verdict (LastError E (flushed E c' nc))
       ∧ ∃ pre post,
           run_trace r
           = pre ++ [register_event c' (subject c'); EvFlush; EvLastError]
                 ++ post).
Proof.
  intros r r'. subst r r'. split_and!.
  - unfold subscribe, resolve_subject, register. simpl.
    repeat case_match; by simplify_eq/=.
  - unfold subscribe, resolve_subject, register. simpl.
    repeat case_match; by simplify_eq/=.
  - unfold subscribe, resolve_subject, register. simpl.
    repeat case_match; by simplify_eq/=.
  - intros c' g' t0 nc Hr Hd.
    destruct (connected_run_shape E _ _ _ _ _ _ Hr Hd) as [Ho Ht].
    split; [exact Ho|]. eexists _, _. exact Ht.
Qed.

Lemma registration_error_is_dropped_witness :
  (Subscribe (Sim.env (inl Samples.refusing)) "orders" Samples.refusing).1
    = Some "nats: invalid subject"
  ∧ run_outcome (subscribe (Sim.env (inl Samples.refusing)) (Sim.cmd "orders")
                   0%nat) = Waiting.
Proof.
  split; [reflexivity|].
  destruct (registration_error_is_dropped (Sim.env (inl Samples.refusing))
              (λ _, None) (Sim.cmd "orders") 0%nat) as (_ & _ & _ & Hrun).
  destruct (Hrun (Sim.cmd "orders") 0%nat [] Samples.refusing
              eq_refl eq_refl) as [Hout _].
  exact Hout.
Defined.

(** ** What a callback writes *)

Lemma string_app_assoc (a b c : string) : (a +:+ b) +:+ c = a +:+ b +:+ c.
Proof.
  induction a as [|x a IH]; [reflexivity|].
  change (String x ((a +:+ b) +:+ c) = String x (a +:+ b +:+ c)).
  by rewrite IH.
Qed.

Lemma string_app_nil_r (a : string) : a +:+ "" = a.
Proof.
  induction a as [|x a IH]; [reflexivity|].
  change (String x (a +:+ "") = String x a). by rewrite IH.
Qed.

Section OutputFacts.
Context (Q : string → string).

Lemma stdout_app t1 t2 : stdout Q (t1 ++ t2) = stdout Q t1 +:+ stdout Q t2.
Proof.
  induction t1 as [|e t1 IH]; [reflexivity|].
  simpl. by rewrite IH, string_app_assoc.
Qed.

Lemma stdout_silent t : Forall (λ e, is_stdout e = false) t → stdout Q t = "".
Proof.
  induction 1 as [|e t He _ IH]; [reflexivity|].
  simpl. rewrite IH. by destruct e.
Qed.

Lemma Sprintf_header h v :
  Sprintf Q fmt_header [AStr h; AStr v] = h +:+ ": " +:+ v +:+ nl.
Proof. reflexivity. Qed.

Lemma stdout_header_values h vals t :
  stdout Q (map (λ val, EvPrintf fmt_header [AStr h; AStr val]) vals ++ t)
  = foldr (λ val rest, h +:+ ": " +:+ val +:+ nl +:+ rest) (stdout Q t) vals.
Proof.
  induction vals as [|v vals IH]; [reflexivity|].
  cbn [map app foldr stdout render]. rewrite IH, Sprintf_header.
  by rewrite !string_app_assoc.
Qed.

Lemma header_text_foldr entries (rest : string) :
  foldr (λ '(h, vals) rest,
           foldr (λ val rest', h +:+ ": " +:+ val +:+ nl +:+ rest') rest vals)
        rest entries
  = header_text entries +:+ rest.
Proof.
  unfold header_text. induction entries as [|[h vals] l IH]; [reflexivity|].
  cbn [foldr]. rewrite IH. clear IH.
  induction vals as [|v vals IH]; [reflexivity|].
  cbn [foldr]. by rewrite IH, !string_app_assoc.
Qed.

Lemma stdout_header_entries entries t :
  stdout Q (flat_map (λ '(h, vals),
               map (λ val, EvPrintf fmt_header [AStr h; AStr val]) vals)
              entries ++ t)
  = header_text entries +:+ stdout Q t.
Proof.
  rewrite <- header_text_foldr.
  induction entries as [|[h vals] l IH]; [reflexivity|].
  cbn [flat_map foldr]. rewrite <- app_assoc, stdout_header_values.
  by rewrite IH.
Qed.

(** Lines 106-114 as text. *)
Lemma stdout_headers d :
  stdout Q (headers d)
  = if bool_decide (0 < size (Header (msg d)))%nat
    then header_text (visit d) +:+ nl else "".
Proof.
  unfold headers. case_bool_decide; [|reflexivity].
  by rewrite stdout_header_entries.
Qed.

(** Lines 116-119 as text. *)
Lemma stdout_payload m :
  stdout Q (payload m)
  = string_of_bytes (Data m) +:+ nl
    +:+ (if HasSuffix (string_of_bytes (Data m)) nl then "" else nl).
Proof.
  unfold payload. destruct (HasSuffix _ _);
    cbn [negb stdout render Sprintln];
    by rewrite ?string_app_assoc, ?string_app_nil_r.
Qed.
End OutputFacts.

Lemma stdout_handler E c d st :
  stdout (Quote E) (handler E c d st).1
  = stdout (Quote E)
      (display c d (wrap_int (var_i st + 1)) (msg_info E (msg d))).
Proof.
  rewrite handler_events, stdout_app.
  rewrite (stdout_silent _ (if acked E c (msg d) then _ else _)).
  - apply string_app_nil_r.
  - destruct (acked E c (msg d)); [|constructor].
    constructor; [reflexivity|].
    destruct (Respond E _ _ _).1; repeat constructor.
Qed.

(** C5, as stated, does not hold.  In raw mode the payload is printed with
    [Println], which always adds a line feed: a payload that ends with one
    comes out with two.  Outside raw mode a payload without a final line
    feed is followed by two of them. *)
Lemma payload_terminator_counterexample :
  let out_raw :=
    stdout Sim.quote
      (handler Samples.E0 Samples.raw_cmd Samples.ended
         (Sim.start Sim.healthy)).1 in
  let out :=
    stdout Sim.quote
      (handler Samples.E0 (Sim.cmd "greetings") Samples.hello
         (Sim.start Sim.healthy)).1 in
  let line :=
    stdout Sim.quote
      (summary (Sim.cmd "greetings") (msg Samples.hello) 1 None) in
  out_raw = "done" +:+ nl +:+ nl
  ∧ out_raw ≠ spec_payload_text (string_of_bytes (Data (msg Samples.ended)))
  ∧ out = line +:+ "hello" +:+ nl +:+ nl
  ∧ out ≠ line +:+ spec_payload_text (string_of_bytes (Data (msg Samples.hello))).
Proof.
  split_and!; [reflexivity| |reflexivity|];
    intros Heq; vm_compute in Heq; discriminate Heq.
Qed.

(** C5 (amended): in raw mode the whole output of a callback is the payload
    text followed by one line feed, added also when the text already ends
    with one.  Outside raw mode the payload is printed after the summary
    and header lines as the text, one line feed, and a second line feed
    when the text does not end with one: that is the text terminated as
    the specification words it, followed by one empty line. *)
Theorem payload_output E c d st :
  let data := string_of_bytes (Data (msg d)) in
  let before :=
    stdout (Quote E)
      (summary c (msg d) (wrap_int (var_i st + 1)) (msg_info E (msg d))
       ++ headers d) in
  stdout (Quote E) (handler E c d st).1
  = (if raw c then data +:+ nl
     else before +:+ data +:+ nl
          +:+ (if HasSuffix data nl then "" else nl))
  ∧ data +:+ nl +:+ (if HasSuffix data nl then "" else nl)
    = spec_payload_text data +:+ nl.
Proof.
  intros data before. subst data before. split.
  - rewrite stdout_handler. unfold display. destruct (raw c).
    + cbn [stdout render Sprintln]. apply string_app_nil_r.
    + rewrite app_assoc, stdout_app, stdout_payload. reflexivity.
  - unfold spec_payload_text. destruct (HasSuffix _ _).
    + by rewrite string_app_nil_r.
    + by rewrite string_app_assoc.
Qed.

(** ** Header lines *)

(** C6, as stated, does not hold.  [Header] is a Go map, which has no
    declared order: a [range] over the header of the example may yield B
    before A, and the lines then come out as B: x, A: 1, A: 2. *)
Lemma header_order_counterexample :
  let out :=
    stdout Sim.quote
      (handler Samples.E0 (Sim.cmd "orders") Samples.tagged_BA
         (Sim.start Sim.healthy)).1 in
  let line :=
    stdout Sim.quote (summary (Sim.cmd "orders") Samples.tagged 1 None) in
  range_ok Samples.tagged_BA
  ∧ Header (msg Samples.tagged_BA) = {[ "A" := ["1"; "2"]; "B" := ["x"] ]}
  ∧ out = line +:+ "B: x" +:+ nl +:+ "A: 1" +:+ nl +:+ "A: 2" +:+ nl
               +:+ nl +:+ "body" +:+ nl +:+ nl
  ∧ out ≠ line +:+ "A: 1" +:+ nl +:+ "A: 2" +:+ nl +:+ "B: x" +:+ nl
               +:+ nl +:+ "body" +:+ nl +:+ nl.
Proof.
  split_and!; [|reflexivity|reflexivity|].
  - unfold range_ok.
    replace (map_to_list (Header (msg Samples.tagged_BA)))
      with [("A", ["1"; "2"]); ("B", ["x"])] by (vm_compute; reflexivity).
    apply perm_swap.
  - intros Heq. vm_compute in Heq. discriminate Heq.
Qed.

(** C6 (amended): for a message printed outside raw mode whose header is
    not empty, the output is the summary line, then one line per header
    value, then one empty line, then the payload.  The lines of one header
    name are together and in the order of its values; the names come in
    the order in which Go's [range] yields the entries of the map, which
    is some enumeration of them and not a declared order.  For the header
    {A: [1, 2], B: [x]} the lines are A: 1, A: 2, B: x or B: x, A: 1,
    A: 2. *)
Theorem header_lines E c d st :
  raw c = false → Header (msg d) ≠ ∅ → range_ok d →
  let i := wrap_int (var_i st + 1) in
  let info := msg_info E (msg d) in
  stdout (Quote E) (handler E c d st).1
  = stdout (Quote E) (summary c (msg d) i info)
    +:+ header_text (visit d) +:+ nl
    +:+ stdout (Quote E) (payload (msg d))
  ∧ visit d ≡ₚ map_to_list (Header (msg d))
  ∧ (Header (msg d) = {[ "A" := ["1"; "2"]; "B" := ["x"] ]} →
     header_text (visit d) = "A: 1" +:+ nl +:+ "A: 2" +:+ nl +:+ "B: x" +:+ nl
     ∨ header_text (visit d)
       = "B: x" +:+ nl +:+ "A: 1" +:+ nl +:+ "A: 2" +:+ nl).
Proof.
  intros Hraw Hne Hok i info. subst i info. split_and!.
  - rewrite stdout_handler. unfold display. rewrite Hraw.
    rewrite !stdout_app, stdout_headers.
    rewrite bool_decide_eq_true_2.
    + by rewrite !string_app_assoc.
    + apply map_size_non_empty_iff in Hne. lia.
  - exact Hok.
  - intros Hhdr. unfold range_ok in Hok. rewrite Hhdr in Hok.
    replace (map_to_list _) with [("A", ["1"; "2"]); ("B", ["x"])] in Hok
      by (vm_compute; reflexivity).
    symmetry in Hok. apply Permutation_length_2_inv in Hok as [-> | ->];
      [left|right]; reflexivity.
Qed.

Lemma header_lines_witness :
  raw (Sim.cmd "orders") = false
  ∧ Header (msg Samples.tagged_AB) ≠ ∅
  ∧ range_ok Samples.tagged_AB
  ∧ stdout Sim.quote
      (handler Samples.E0 (Sim.cmd "orders") Samples.tagged_AB
         (Sim.start Sim.healthy)).1
    = stdout Sim.quote (summary (Sim.cmd "orders") Samples.tagged 1 None)
      +:+ ("A: 1" +:+ nl +:+ "A: 2" +:+ nl +:+ "B: x" +:+ nl) +:+ nl
      +:+ ("body" +:+ nl +:+ nl).
Proof.
  assert (Hne : Header (msg Samples.tagged_AB) ≠ ∅).
  { intros Heq. apply (f_equal (lookup "A")) in Heq. discriminate Heq. }
  assert (Hok : range_ok Samples.tagged_AB).
  { unfold range_ok.
    replace (map_to_list (Header (msg Samples.tagged_AB)))
      with [("A", ["1"; "2"]); ("B", ["x"])] by (vm_compute; reflexivity).
    reflexivity. }
  split; [reflexivity|]. split; [exact Hne|]. split; [exact Hok|].
  destruct (header_lines Samples.E0 (Sim.cmd "orders") Samples.tagged_AB
              (Sim.start Sim.healthy) eq_refl Hne Hok) as [Hout _].
  exact Hout.
Defined.

(** ** Errors inside a callback *)

Lemma set_err_same {E} (st : Captured E) : set_err (var_err st) st = st.
Proof. by destruct st. Qed.

Lemma handler_set_err E c d st e :
  ∃ e', handler E c d (set_err e st)
        = ((handler E c d st).1, set_err e' (handler E c d st).2).
Proof.
  unfold handler, acknowledge. simpl. destruct (jsAck c && _).
  - destruct (Respond E (msg d) [] (var_nc st)) as [err nc].
    exists err. reflexivity.
  - exists e. reflexivity.
Qed.

(** No callback reads the captured [err]. *)
Lemma deliver_set_err E c ds st e :
  (deliver E c ds (set_err e st)).1 = (deliver E c ds st).1.
Proof.
  revert st e. induction ds as [|d ds IH]; intros st e; [reflexivity|].
  rewrite !deliver_cons. cbn [fst].
  destruct (handler_set_err E c d st e) as [e' ->]. cbn [fst snd].
  by rewrite IH.
Qed.

Lemma Sprintf_ack_failed Q reply e :
  Sprintf Q fmt_ack_failed [AStr reply; AStr e]
  = "Acknowledging message via subject " +:+ reply +:+ " failed: "
    +:+ e +:+ nl.
Proof. reflexivity. Qed.

Lemma ack_iff_enabled_and_parsed_witness :
  EvRespond "$JS.ACK.ORDERS.NEW.1.42.7.0" []
  ∈ (handler Samples.E0 (set_raw true Samples.ack_cmd) Samples.order
       (Sim.start Sim.healthy)).1
  ∧ ∀ r b, EvRespond r b
           ∉ (handler Samples.E0 Samples.ack_cmd Samples.question
                (Sim.start Sim.healthy)).1.
Proof.
  split.
  - destruct (ack_iff_enabled_and_parsed Samples.E0
                (set_raw true Samples.ack_cmd) Samples.order
                (Sim.start Sim.healthy)) as (Hiff & _).
    apply Hiff. split; [reflexivity|]. by eexists.
  - destruct (ack_iff_enabled_and_parsed Samples.E0 Samples.ack_cmd
                Samples.question (Sim.start Sim.healthy))
      as (_ & _ & _ & _ & Hnone).
    apply Hnone. reflexivity.
Defined.

(** * Further properties of the command *)

(** ** The whole trace of a run *)

Lemma resolve_subject_none E c g :
  has_subject c = false → resolve_subject E c g = None.
Proof.
  unfold has_subject, resolve_subject.
  case_bool_decide; destruct (inbox c); simpl; done.
Qed.

Lemma resolve_subject_some E c g :
  has_subject c = true →
  ∃ c' g', resolve_subject E c g = Some (c', g', resolution c)
           ∧ queue c' = queue c ∧ raw c' = raw c ∧ jsAck c' = jsAck c
           ∧ inbox c' = inbox c.
Proof.
  unfold has_subject, resolve_subject, resolution.
  case_bool_decide; destruct (inbox c) eqn:Hi; simpl; try done; intros _.
  - destruct (NewInbox E g) as [s g']. by eexists _, _.
  - by eexists _, _.
  - by eexists _, _.
Qed.

Lemma subscribe_connected_vars E c g c' g' t0 nc :
  resolve_subject E c g = Some (c', g', t0) →
  newNatsConn E "" = inl nc →
  run_vars (subscribe E c g)
  = Some {| var_i := 0;
            var_err := LastError E (flushed E c' nc);
            var_nc := match LastError E (flushed E c' nc) with
                      | Some _ => Close E (flushed E c' nc)
                      | None => flushed E c' nc
                      end |}.
Proof.
  intros Hr Hd. unfold subscribe, flushed. rewrite Hr, Hd.
  destruct (register E c' nc) as [t1 nc1]. simpl.
  by destruct (LastError E (Flush E nc1).2).
Qed.

(** Every run, call by call. *)
Lemma subscribe_trace E c g :
  run_trace (subscribe E c g)
  = if has_subject c then
      resolution c ++ [EvConnect ""]
      ++ match newNatsConn E "" with
         | inl nc =>
             announce (run_cmd (subscribe E c g))
             ++ [register_event c (subject (run_cmd (subscribe E c g)));
                 EvFlush; EvLastError]
             ++ closing (LastError E (flushed E (run_cmd (subscribe E c g)) nc))
         | inr _ => []
         end
    else [].
Proof.
  destruct (has_subject c) eqn:Hs.
  - destruct (resolve_subject_some E c g Hs)
      as (c' & g' & Hr & Hq & _).
    destruct (newNatsConn E "") as [nc|err] eqn:Hd.
    + destruct (subscribe_connected E _ _ _ _ _ _ Hr Hd)
        as (_ & -> & _ & ->).
      unfold register_event. by rewrite Hq.
    + by rewrite (subscribe_dial_failed E _ _ _ _ _ _ Hr Hd).
  - unfold subscribe. by rewrite (resolve_subject_none E c g Hs).
Qed.

(** X1: when the connection cannot be obtained, the command returns the
    error of [newNatsConn] as it is; it has made the connection attempt,
    preceded by the inbox generation if there was one, and nothing else:
    no announcement, no registration, no flush, no close. *)
Theorem dial_failure_is_returned E c g err :
  has_subject c = true →
  newNatsConn E "" = inr err →
  let r := subscribe E c g in
  run_outcome r = Returned err
  ∧ run_vars r = None
  ∧ run_trace r = resolution c ++ [EvConnect ""].
Proof.
  intros Hs Hd r. subst r.
  destruct (resolve_subject_some E c g Hs) as (c' & g' & Hr & _).
  by rewrite (subscribe_dial_failed E _ _ _ _ _ _ Hr Hd).
Qed.

Lemma dial_failure_is_returned_witness :
  has_subject Samples.raw_inbox_cmd = true
  ∧ newNatsConn Samples.down ""
    = inr "nats: no servers available for connection"
  ∧ run_outcome (subscribe Samples.down Samples.raw_inbox_cmd 3%nat)
    = Returned "nats: no servers available for connection"
  ∧ run_trace (subscribe Samples.down Samples.raw_inbox_cmd 3%nat)
    = [EvNewInbox; EvConnect ""].
Proof.
  split; [reflexivity|]. split; [reflexivity|].
  destruct (dial_failure_is_returned Samples.down Samples.raw_inbox_cmd 3%nat
              _ eq_refl eq_refl) as (Hout & _ & Htrace).
  split; [exact Hout|exact Htrace].
Defined.

Lemma run_cmd_flags E c g :
  queue (run_cmd (subscribe E c g)) = queue c
  ∧ raw (run_cmd (subscribe E c g)) = raw c
  ∧ jsAck (run_cmd (subscribe E c g)) = jsAck c
  ∧ inbox (run_cmd (subscribe E c g)) = inbox c.
Proof.
  destruct (has_subject c) eqn:Hs.
  - destruct (resolve_subject_some E c g Hs) as (c' & g' & Hr & Hflags).
    destruct (newNatsConn E "") as [nc|err] eqn:Hd.
    + by destruct (subscribe_connected E _ _ _ _ _ _ Hr Hd) as (_ & -> & _).
    + by rewrite (subscribe_dial_failed E _ _ _ _ _ _ Hr Hd).
  - unfold subscribe. by rewrite (resolve_subject_none E c g Hs).
Qed.

Lemma subscribe_outcome E c g :
  run_outcome (subscribe E c g)
  = if has_subject c then
      match newNatsConn E "" with
      | inl nc =>
          verdict (LastError E (flushed E (run_cmd (subscribe E c g)) nc))
      | inr err => Returned err
      end
    else Returned "subject is required".
Proof.
  destruct (has_subject c) eqn:Hs.
  - destruct (resolve_subject_some E c g Hs) as (c' & g' & Hr & _).
    destruct (newNatsConn E "") as [nc|err] eqn:Hd.
    + by destruct (subscribe_connected E _ _ _ _ _ _ Hr Hd) as (-> & -> & _).
    + by rewrite (subscribe_dial_failed E _ _ _ _ _ _ Hr Hd).
  - unfold subscribe. by rewrite (resolve_subject_none E c g Hs).
Qed.

Lemma subscribe_vars E c g :
  run_vars (subscribe E c g)
  = if has_subject c then
      match newNatsConn E "" with
      | inl nc =>
          let nc' := flushed E (run_cmd (subscribe E c g)) nc in
          Some {| var_i := 0;
                  var_err := LastError E nc';
                  var_nc := match LastError E nc' with
                            | Some _ => Close E nc'
                            | None => nc'
                            end |}
      | inr _ => None
      end
    else None.
Proof.
  destruct (has_subject c) eqn:Hs.
  - destruct (resolve_subject_some E c g Hs) as (c' & g' & Hr & _).
    destruct (newNatsConn E "") as [nc|err] eqn:Hd.
    + rewrite (subscribe_connected_vars E _ _ _ _ _ _ Hr Hd).
      by destruct (subscribe_connected E _ _ _ _ _ _ Hr Hd) as (_ & -> & _).
    + by rewrite (subscribe_dial_failed E _ _ _ _ _ _ Hr Hd).
  - unfold subscribe. by rewrite (resolve_subject_none E c g Hs).
Qed.

(** Decides a property of every event of the set-up, piece by piece. *)
Ltac setup_pieces :=
  unfold resolution, announce, register_event, closing;
  repeat case_match; simpl; repeat constructor; try done.

Lemma setup_never_closes c c' s :
  EvClose ∉ resolution c ++ [EvConnect ""]
            ++ announce c' ++ [register_event c s; EvFlush; EvLastError].
Proof.
  intros Hin.
  assert (Hall : Forall (λ e, e ≠ EvClose)
            (resolution c ++ [EvConnect ""]
             ++ announce c' ++ [register_event c s; EvFlush; EvLastError])).
  { rewrite !Forall_app. split_and!; setup_pieces. }
  rewrite Forall_forall in Hall. by apply Hall in Hin.
Qed.

(** X2: the connection is closed exactly on the runs that return after
    having obtained it, by the deferred [nc.Close()]; the close is then the
    last call of the run, it happens once, and the connection the run
    leaves is the closed one.  A run that goes on to wait never closes. *)
Theorem connection_closed_iff_returned E c g :
  let r := subscribe E c g in
  (EvClose ∈ run_trace r ↔ is_Some (run_vars r) ∧ run_outcome r ≠ Waiting)
  ∧ (EvClose ∈ run_trace r →
     ∃ t st nc, run_trace r = t ++ [EvClose] ∧ (EvClose ∉ t)
                ∧ run_vars r = Some st ∧ var_nc st = Close E nc).
Proof.
  intros r. subst r.
  rewrite subscribe_trace, subscribe_vars, subscribe_outcome. cbv zeta.
  destruct (has_subject c).
  2:{ split; [|by intros []%elem_of_nil].
      split; [by intros []%elem_of_nil|by intros [[] _]]. }
  destruct (newNatsConn E "") as [nc|err].
  2:{ assert (Hno : EvClose ∉ resolution c ++ [EvConnect ""] ++ []).
      { intros Hin. simpl in Hin. rewrite elem_of_app, elem_of_cons in Hin.
        destruct Hin as [Hin|[?|[]%elem_of_nil]]; [|done].
        unfold resolution in Hin. case_match;
          [by apply list_elem_of_singleton in Hin|by apply elem_of_nil in Hin]. }
      split; [|done]. split; [done|by intros [[] _]]. }
  set (c' := run_cmd (subscribe E c g)).
  pose proof (setup_never_closes c c' (subject c')) as Hno.
  destruct (LastError E (flushed E c' nc)) as [e|]; simpl.
  - assert (Hin : EvClose ∈ resolution c ++ EvConnect ""
                    :: announce c'
                       ++ [register_event c (subject c'); EvFlush;
                           EvLastError; EvClose]).
    { rewrite elem_of_app, elem_of_cons, elem_of_app, !elem_of_cons. auto 10. }
    split; [split; [by eauto|done]|].
    intros _.
    exists (resolution c ++ [EvConnect ""] ++ announce c'
            ++ [register_event c (subject c'); EvFlush; EvLastError]).
    eexists _, _. split_and!; [|exact Hno|reflexivity|reflexivity].
    rewrite <- !app_assoc. reflexivity.
  - split; [|intros Hin; destruct (Hno Hin)].
    split; [intros Hin; destruct (Hno Hin)|by intros [_ []]].
Qed.

Lemma connection_closed_iff_returned_witness :
  let r := subscribe (Sim.env (inl Samples.broken)) (Sim.cmd "orders") 0%nat in
  EvClose ∈ run_trace r
  ∧ ∃ t st nc, run_trace r = t ++ [EvClose] ∧ (EvClose ∉ t)
               ∧ run_vars r = Some st
               ∧ var_nc st = Close (Sim.env (inl Samples.broken)) nc.
Proof.
  intros r.
  destruct (connection_closed_iff_returned (Sim.env (inl Samples.broken))
              (Sim.cmd "orders") 0%nat) as [Hiff Hlast].
  assert (Hin : EvClose ∈ run_trace r).
  { apply Hiff. split; [by eexists|discriminate]. }
  split; [exact Hin|exact (Hlast Hin)].
Defined.

(** ** What the set-up logs, registers and prints *)

Lemma Sprintf_subscribing Q s :
  Sprintf Q fmt_subscribing [AStr s] = "Subscribing on " +:+ s +:+ nl.
Proof. reflexivity. Qed.

Lemma Sprintf_subscribing_ack Q s :
  Sprintf Q fmt_subscribing_ack [AStr s]
  = "Subscribing on " +:+ s
    +:+ " with acknowledgement of JetStream messages" +:+ nl.
Proof. reflexivity. Qed.

(** X4: the command logs one line naming the subject it subscribes on,
    the generated one in inbox mode, with the acknowledgement wording when
    acknowledgements are on.  It does so exactly when it has a subject, has
    obtained its connection, and raw mode is off or the inbox flag is on:
    a raw-mode run on a generated inbox still tells its subject, any other
    raw-mode run logs nothing. *)
Theorem subscription_is_announced E c g :
  let r := subscribe E c g in
  let s := subject (run_cmd r) in
  filter is_log (run_trace r)
  = (if has_subject c && dials E && (negb (raw c) || inbox c)
     then [EvLog (if jsAck c then fmt_subscribing_ack else fmt_subscribing)
                 [AStr s]]
     else [])
  ∧ Sprintf (Quote E) fmt_subscribing [AStr s]
    = "Subscribing on " +:+ s +:+ nl
  ∧ Sprintf (Quote E) fmt_subscribing_ack [AStr s]
    = "Subscribing on " +:+ s
      +:+ " with acknowledgement of JetStream messages" +:+ nl.
Proof.
  intros r s. subst r s.
  split; [|split; [apply Sprintf_subscribing|apply Sprintf_subscribing_ack]].
  rewrite subscribe_trace. unfold dials, announce.
  destruct (run_cmd_flags E c g) as (_ & -> & -> & ->).
  destruct (has_subject c); [|reflexivity].
  destruct (newNatsConn E "") as [nc|err]; simpl.
  - rewrite !filter_app.
    unfold resolution, register_event, closing.
    repeat case_match; reflexivity.
  - rewrite !filter_app. unfold resolution.
    repeat case_match; reflexivity.
Qed.

(** X5: a run that has a subject and obtains its connection registers the
    callback exactly once, with [QueueSubscribe] on the command's queue
    group when that is set and with [Subscribe] otherwise; any other run
    registers nothing. *)
Theorem one_registration E c g :
  let r := subscribe E c g in
  let s := subject (run_cmd r) in
  filter is_register (run_trace r)
  = if has_subject c && dials E
    then [if bool_decide (queue c = "") then EvSubscribe s
          else EvQueueSubscribe s (queue c)]
    else [].
Proof.
  intros r s. subst r s.
  rewrite subscribe_trace. unfold dials.
  destruct (has_subject c); [|reflexivity].
  destruct (newNatsConn E "") as [nc|err]; simpl.
  - rewrite !filter_app.
    unfold resolution, announce, register_event, closing.
    repeat case_bool_decide; repeat case_match; try reflexivity; done.
  - rewrite !filter_app. unfold resolution.
    repeat case_match; reflexivity.
Qed.

(** X6: the set-up never writes on standard output and never sends a
    response: whatever appears there comes from callbacks. *)
Theorem setup_is_silent E c g :
  let r := subscribe E c g in
  stdout (Quote E) (run_trace r) = ""
  ∧ Forall (λ e, is_stdout e = false ∧ is_respond e = false) (run_trace r).
Proof.
  intros r. subst r.
  assert (Hall : Forall (λ e, is_stdout e = false ∧ is_respond e = false)
                   (run_trace (subscribe E c g))).
  { rewrite subscribe_trace.
    destruct (has_subject c); [|constructor].
    destruct (newNatsConn E "") as [nc|err];
      rewrite !Forall_app; split_and!; setup_pieces. }
  split; [|exact Hall].
  apply stdout_silent. eapply Forall_impl; [exact Hall|]. by intros e [? _].
Qed.

(** ** Whole sequences of callbacks *)

Lemma session_cons E c d ds st :
  session E c (d :: ds) st
  = (handler E c d st).1 ++ session E c ds (handler E c d st).2.
Proof. unfold session. by rewrite deliver_cons. Qed.

Lemma handler_conn E c d st :
  var_nc (handler E c d st).2
  = if acked E c (msg d) then (Respond E (msg d) [] (var_nc st)).2
    else var_nc st.
Proof.
  unfold handler, acknowledge. fold (acked E c (msg d)).
  destruct (acked E c (msg d)); [|reflexivity].
  by destruct (Respond E (msg d) [] (var_nc st)).
Qed.

Lemma handler_responds E c d st :
  filter is_respond (handler E c d st).1
  = if acked E c (msg d) then [EvRespond (Reply (msg d)) []] else [].
Proof.
  rewrite handler_events, filter_app.
  assert (Hdisp : filter is_respond
            (display c d (wrap_int (var_i st + 1)) (msg_info E (msg d))) = []).
  { pose proof (display_stdout c d (wrap_int (var_i st + 1))
                  (msg_info E (msg d))) as Hall.
    induction Hall as [|e l He _ IH]; [reflexivity|].
    rewrite filter_cons_False; [exact IH|]. intros Hr. by destruct e. }
  rewrite Hdisp. destruct (acked E c (msg d)); [|reflexivity].
  simpl. rewrite filter_cons_True by done. f_equal.
  by destruct (Respond E _ _ _).1.
Qed.

(** X7: in raw mode the standard output of any sequence of deliveries is
    the payloads, each followed by one line feed, in the order in which the
    callbacks ran, and nothing else, whatever is acknowledged or logged on
    the way. *)
Theorem raw_session_output E c ds st :
  raw c = true →
  stdout (Quote E) (session E c ds st) = raw_text ds.
Proof.
  intros Hraw. revert st. induction ds as [|d ds IH]; intros st; [reflexivity|].
  rewrite session_cons, stdout_app, stdout_handler, IH.
  unfold display. rewrite Hraw. cbn [stdout render Sprintln raw_text foldr].
  by rewrite string_app_nil_r, string_app_assoc.
Qed.

Lemma raw_session_output_witness :
  raw Samples.raw_cmd = true
  ∧ stdout Sim.quote
      (session Samples.E0 Samples.raw_cmd [Samples.ended; Samples.hello]
         (Sim.start Sim.healthy))
    = "done" +:+ nl +:+ nl +:+ "hello" +:+ nl.
Proof.
  split; [reflexivity|].
  exact (raw_session_output Samples.E0 Samples.raw_cmd
           [Samples.ended; Samples.hello] (Sim.start Sim.healthy) eq_refl).
Defined.

(** X8: over a sequence of deliveries the responses are sent in the order
    of the callbacks, one for each delivery that calls for an
    acknowledgement and none for the others, each to the reply subject of
    its message; and each is sent on the connection as the previous one
    left it. *)
Theorem acknowledgements_in_order E c ds st :
  filter is_respond (session E c ds st)
  = (λ d, EvRespond (Reply (msg d)) [])
      <$> filter (λ d, acked E c (msg d)) ds
  ∧ var_nc (deliver E c ds st).2 = respond_all E c ds (var_nc st).
Proof.
  revert st. induction ds as [|d ds IH]; intros st; [done|].
  destruct (IH (handler E c d st).2) as [IHr IHc].
  rewrite session_cons, filter_app, handler_responds, IHr.
  rewrite deliver_cons. cbn [snd respond_all foldl].
  fold (respond_all E c ds). rewrite IHc, handler_conn.
  split; [|reflexivity].
  destruct (acked E c (msg d)) eqn:Hack.
  - rewrite filter_cons_True; [reflexivity|]. by apply Is_true_true.
  - rewrite filter_cons_False; [reflexivity|]. by apply Is_true_false.
Qed.

(** X9: what a sequence of callbacks prints depends on the command, the
    messages and the starting value of the counter only: neither the state
    of the connection nor the success or failure of any acknowledgement
    changes the standard output. *)
Theorem session_output_ignores_connection E c ds st st' :
  var_i st = var_i st' →
  stdout (Quote E) (session E c ds st) = stdout (Quote E) (session E c ds st').
Proof.
  revert st st'. induction ds as [|d ds IH]; intros st st' Hi; [reflexivity|].
  rewrite !session_cons, !stdout_app, !stdout_handler, Hi.
  f_equal. apply IH. by rewrite !handler_counter, Hi.
Qed.

Lemma session_output_ignores_connection_witness :
  let E := Sim.env (inl Samples.deaf) in
  let st' := Build_Captured E 0 (Some "stale") Sim.healthy in
  var_i (Sim.start Samples.deaf) = var_i st'
  ∧ stdout Sim.quote
      (session E Samples.ack_cmd [Samples.order; Samples.question]
         (Sim.start Samples.deaf))
    = stdout Sim.quote
        (session E Samples.ack_cmd [Samples.order; Samples.question] st').
Proof.
  intros E st'. split; [reflexivity|].
  exact (session_output_ignores_connection E Samples.ack_cmd
           [Samples.order; Samples.question] (Sim.start Samples.deaf) st'
           eq_refl).
Defined.

(** X10: without the acknowledgement flag the callbacks only print: no
    delivery makes them send or log anything, and after any number of them
    the connection and the captured [err] are as they were. *)
Theorem no_ack_flag_no_traffic E c ds st :
  jsAck c = false →
  Forall is_stdout (session E c ds st)
  ∧ var_nc (deliver E c ds st).2 = var_nc st
  ∧ var_err (deliver E c ds st).2 = var_err st.
Proof.
  intros Hack. revert st.
  induction ds as [|d ds IH]; intros st; [by repeat constructor|].
  destruct (IH (handler E c d st).2) as (IHp & IHc & IHe).
  rewrite session_cons, Forall_app, deliver_cons. cbn [snd].
  rewrite IHc, IHe.
  assert (Hno : acked E c (msg d) = false) by (unfold acked; by rewrite Hack).
  split_and!.
  - rewrite handler_events, Hno, app_nil_r. apply display_stdout.
  - exact IHp.
  - by rewrite handler_conn, Hno.
  - unfold handler. fold (acked E c (msg d)). by rewrite Hno.
Qed.

Lemma no_ack_flag_no_traffic_witness :
  jsAck (Sim.cmd "orders.new") = false
  ∧ var_nc (deliver (Sim.env (inl Samples.deaf)) (Sim.cmd "orders.new")
              [Samples.order; Samples.question] (Sim.start Samples.deaf)).2
    = Samples.deaf.
Proof.
  split; [reflexivity|].
  destruct (no_ack_flag_no_traffic (Sim.env (inl Samples.deaf))
              (Sim.cmd "orders.new") [Samples.order; Samples.question]
              (Sim.start Samples.deaf) eq_refl) as (_ & Hnc & _).
  exact Hnc.
Defined.

(** ** Single callbacks *)

(** X11: the parser is consulted only for messages with a reply subject.  A
    message without one is never acknowledged, whatever the parser would
    make of it and whether or not acknowledgements are on: its callback
    prints the plain form of the display and leaves the connection and the
    captured [err] as they were. *)
Theorem no_reply_no_metadata E c d st :
  Reply (msg d) = "" →
  let i := wrap_int (var_i st + 1) in
  msg_info E (msg d) = None
  ∧ handler E c d st
    = (display c d i None,
       {| var_i := i; var_err := var_err st; var_nc := var_nc st |})
  ∧ summary c (msg d) i None
    = [EvPrintf fmt_plain [AInt i; AStr (Subject (msg d))]].
Proof.
  intros Hreply i. subst i.
  assert (Hinfo : msg_info E (msg d) = None).
  { unfold msg_info. rewrite Hreply. reflexivity. }
  split_and!; [exact Hinfo| |].
  - unfold handler. rewrite Hinfo.
    rewrite bool_decide_eq_false_2 by (by intros [? ?]).
    by rewrite andb_false_r.
  - unfold summary. by rewrite Hreply.
Qed.

Lemma no_reply_no_metadata_witness :
  Reply (msg Samples.hello) = ""
  ∧ (ParseJSMsgMetadata Samples.eager (msg Samples.hello)).1
    = Some Sim.order_info
  ∧ (handler Samples.eager Samples.ack_cmd Samples.hello
       (Build_Captured Samples.eager 0 None Samples.deaf)).1
    = [EvPrintf fmt_plain [AInt 1; AStr "greetings"];
       EvPrintln ["hello"]; EvPrintln []].
Proof.
  split; [reflexivity|]. split; [reflexivity|].
  destruct (no_reply_no_metadata Samples.eager Samples.ack_cmd Samples.hello
              (Build_Captured Samples.eager 0 None Samples.deaf) eq_refl)
    as (_ & Hrun & _).
  rewrite Hrun. reflexivity.
Defined.

(** X12: the text of the summary line.  It starts with the index between
    [#] and the closing bracket; a plain message shows its quoted subject,
    followed by its quoted reply subject when it has one; a message with
    metadata shows stream, consumer, subject, delivery count, consumer
    sequence, stream sequence and the acknowledgement flag, in this
    order. *)
Theorem summary_line_text E c m i info :
  stdout (Quote E) (summary c m i info)
  = "[#" +:+ pretty i +:+ "] Received "
    +:+ match info with
        | None =>
            "on " +:+ Quote E (Subject m)
            +:+ (if bool_decide (Reply m ≠ "")
                 then " with reply " +:+ Quote E (Reply m) else "")
            +:+ nl
        | Some info =>
            "JetStream message: consumer: " +:+ Stream info
            +:+ " > " +:+ Consumer info
            +:+ " / subject: " +:+ Subject m
            +:+ " / delivered: " +:+ pretty (Delivered info)
            +:+ " / consumer seq: " +:+ pretty (ConsumerSequence info)
            +:+ " / stream seq: " +:+ pretty (StreamSequence info)
            +:+ " / ack: " +:+ (if jsAck c then "true" else "false")
            +:+ nl
        end.
Proof.
  unfold summary. destruct info as [info|].
  - cbn [stdout render]. rewrite string_app_nil_r.
    destruct (jsAck c); reflexivity.
  - case_bool_decide; cbn [stdout render]; rewrite string_app_nil_r;
      reflexivity.
Qed.

(** ** The header block *)

Lemma header_events_length (entries : list (string * list string)) :
  length (flat_map (λ '(h, vals),
            map (λ val, EvPrintf fmt_header [AStr h; AStr val]) vals) entries)
  = sum_list (length <$> entries.*2).
Proof.
  induction entries as [|[h vals] l IH]; [reflexivity|].
  cbn [flat_map]. rewrite length_app, length_map, IH. reflexivity.
Qed.

Lemma headers_perm d d' :
  msg d = msg d' → range_ok d → range_ok d' → headers d ≡ₚ headers d'.
Proof.
  unfold range_ok, headers. intros Hm Hd Hd'. rewrite <- Hm in *.
  case_bool_decide; [|reflexivity].
  apply Permutation_app_tail, Permutation_flat_map.
  by rewrite Hd, Hd'.
Qed.

Lemma handler_state E c d st :
  (handler E c d st).2
  = if acked E c (msg d)
    then (acknowledge E (msg d) (wrap_int (var_i st + 1)) st).2
    else {| var_i := wrap_int (var_i st + 1); var_err := var_err st;
            var_nc := var_nc st |}.
Proof.
  unfold handler. fold (acked E c (msg d)).
  destruct (acked E c (msg d)); [|reflexivity].
  by destruct (acknowledge E (msg d) _ st).
Qed.

(** X13: the order in which [range] yields the header is immaterial but
    for the order of the lines.  Two callbacks for the same message under
    two orders print the same header lines up to their order, do the same
    otherwise and leave the same captured variables; the header block has
    one line per value plus the separator, and is absent when the header is
    empty. *)
Theorem header_order_is_immaterial E c d d' st :
  msg d = msg d' → range_ok d → range_ok d' →
  headers d ≡ₚ headers d'
  ∧ (handler E c d st).1 ≡ₚ (handler E c d' st).1
  ∧ (handler E c d st).2 = (handler E c d' st).2
  ∧ length (headers d)
    = if bool_decide (Header (msg d) = ∅) then 0%nat
      else S (value_count (msg d)).
Proof.
  intros Hm Hd Hd'. pose proof (headers_perm d d' Hm Hd Hd') as Hperm.
  split_and!; [exact Hperm| | |].
  - rewrite !handler_events, <- Hm. apply Permutation_app_tail.
    unfold display. rewrite <- Hm. destruct (raw c); [reflexivity|].
    apply Permutation_app_head, Permutation_app_tail, Hperm.
  - by rewrite !handler_state, <- Hm.
  - unfold headers, value_count.
    case_bool_decide as Hsize; case_bool_decide as Hempty.
    + apply map_size_empty_iff in Hempty. lia.
    + rewrite length_app, Nat.add_1_r. f_equal.
      rewrite <- header_events_length.
      apply Permutation_length, Permutation_flat_map, Hd.
    + reflexivity.
    + apply map_size_non_empty_iff in Hempty. lia.
Qed.

Lemma header_order_is_immaterial_witness :
  msg Samples.tagged_AB = msg Samples.tagged_BA
  ∧ headers Samples.tagged_AB ≡ₚ headers Samples.tagged_BA
  ∧ length (headers Samples.tagged_AB) = 4%nat.
Proof.
  assert (Hlist : map_to_list (Header Samples.tagged)
                  = [("A", ["1"; "2"]); ("B", ["x"])])
    by (vm_compute; reflexivity).
  assert (Hab : range_ok Samples.tagged_AB).
  { unfold range_ok. change (msg Samples.tagged_AB) with Samples.tagged.
    by rewrite Hlist. }
  assert (Hba : range_ok Samples.tagged_BA).
  { unfold range_ok. change (msg Samples.tagged_BA) with Samples.tagged.
    rewrite Hlist. apply perm_swap. }
  destruct (header_order_is_immaterial Samples.E0 (Sim.cmd "orders")
              Samples.tagged_AB Samples.tagged_BA (Sim.start Sim.healthy)
              eq_refl Hab Hba) as (Hperm & _ & _ & Hlen).
  split; [reflexivity|]. split; [exact Hperm|].
  rewrite Hlen. unfold value_count.
  change (msg Samples.tagged_AB) with Samples.tagged.
  rewrite Hlist. reflexivity.
Defined.

(** X14: the edges of the header block.  An empty header prints nothing,
    not even the separator.  A header that is not empty but whose names
    all have no value prints the separator line alone. *)
Theorem header_block_edges d :
  (Header (msg d) = ∅ → headers d = [])
  ∧ (Header (msg d) ≠ ∅ → range_ok d →
     (∀ h vals, Header (msg d) !! h = Some vals → vals = []) →
     headers d = [EvPrintln []]).
Proof.
  unfold headers. split.
  - intros ->. reflexivity.
  - intros Hne Hok Hvals.
    rewrite bool_decide_eq_true_2
      by (apply map_size_non_empty_iff in Hne; lia).
    assert (Hall : Forall (λ hv, hv.2 = []) (visit d)).
    { apply Forall_forall. intros [h vals] Hin. simpl.
      apply (Hvals h). apply elem_of_map_to_list.
      unfold range_ok in Hok. by rewrite <- Hok. }
    induction Hall as [|[h vals] l Hhv _ IH]; [reflexivity|].
    simpl in Hhv. subst vals. exact IH.
Qed.

Lemma header_block_edges_witness :
  Header (msg Samples.bare) ≠ ∅
  ∧ range_ok Samples.bare
  ∧ headers Samples.bare = [EvPrintln []]
  ∧ headers Samples.hello = [].
Proof.
  assert (Hne : Header (msg Samples.bare) ≠ ∅).
  { intros Heq. apply (f_equal (lookup "Trace")) in Heq. discriminate Heq. }
  assert (Hok : range_ok Samples.bare).
  { unfold range_ok. simpl. by rewrite map_to_list_singleton. }
  destruct (header_block_edges Samples.bare) as [_ Hbare].
  destruct (header_block_edges Samples.hello) as [Hempty _].
  split; [exact Hne|]. split; [exact Hok|]. split; [|by apply Hempty].
  apply Hbare; [exact Hne|exact Hok|].
  intros h vals Hl. unfold Samples.bare in Hl. cbn [msg Header] in Hl.
  by apply lookup_singleton_Some in Hl as [_ <-].
Defined.

(** ** Line ends *)

Lemma string_length_app (a b : string) :
  String.length (a +:+ b) = (String.length a + String.length b)%nat.
Proof.
  induction a as [|x a IH]; [reflexivity|].
  change (S (String.length (a +:+ b))
          = S (String.length a + String.length b)).
  by rewrite IH.
Qed.

Lemma substring_whole (b : string) :
  String.substring 0 (String.length b) b = b.
Proof. induction b as [|x b IH]; [reflexivity|]. simpl. by rewrite IH. Qed.

Lemma substring_skip (a b : string) n :
  String.substring (String.length a) n (a +:+ b) = String.substring 0 n b.
Proof. induction a as [|x a IH]; [reflexivity|]. exact IH. Qed.

Lemma substring_split (s : string) n :
  (n ≤ String.length s)%nat →
  s = String.substring 0 n s
      +:+ String.substring n (String.length s - n) s.
Proof.
  revert n. induction s as [|x s IH]; intros [|n] Hn; simpl in Hn;
    try lia; try reflexivity.
  - change (String x s = "" +:+ String x (String.substring 0 (String.length s) s)).
    by rewrite substring_whole.
  - change (String x s
            = String x (String.substring 0 n s
                        +:+ String.substring n (String.length s - n) s)).
    f_equal. apply IH. lia.
Qed.

(** [HasSuffix] is true exactly of the strings that end with the suffix. *)
Lemma HasSuffix_app (a b : string) : HasSuffix (a +:+ b) b = true.
Proof.
  unfold HasSuffix. rewrite string_length_app, andb_true_iff. split.
  - apply Nat.leb_le. lia.
  - apply bool_decide_eq_true.
    replace (String.length a + String.length b - String.length b)%nat
      with (String.length a) by lia.
    by rewrite substring_skip, substring_whole.
Qed.

Lemma HasSuffix_inv (s suffix : string) :
  HasSuffix s suffix = true → ∃ pre, s = pre +:+ suffix.
Proof.
  unfold HasSuffix. rewrite andb_true_iff, bool_decide_eq_true.
  intros [Hlen%Nat.leb_le Hsub].
  exists (String.substring 0 (String.length s - String.length suffix) s).
  pose proof (substring_split s (String.length s - String.length suffix))
    as Hsplit.
  replace (String.length s - (String.length s - String.length suffix))%nat
    with (String.length suffix) in Hsplit by lia.
  rewrite Hsub in Hsplit. apply Hsplit. lia.
Qed.

(** X15: whatever the payload, the output of a callback ends with a line
    feed; outside raw mode it ends with two, so that an empty line follows
    every message, also an empty payload and a payload that ends with a
    line feed of its own. *)
Theorem output_ends_with_line_feed E c d st :
  let out := stdout (Quote E) (handler E c d st).1 in
  HasSuffix out nl = true
  ∧ (raw c = false → HasSuffix out (nl +:+ nl) = true).
Proof.
  intros out. subst out. rewrite stdout_handler. unfold display.
  destruct (raw c).
  - split; [|done]. cbn [stdout render Sprintln].
    rewrite string_app_nil_r. apply HasSuffix_app.
  - rewrite app_assoc, stdout_app, stdout_payload.
    set (before := stdout (Quote E) (_ ++ _)).
    set (data := string_of_bytes (Data (msg d))).
    assert (Htwo : ∃ pre, before +:+ data +:+ nl
                            +:+ (if HasSuffix data nl then "" else nl)
                          = pre +:+ nl +:+ nl).
    { destruct (HasSuffix data nl) eqn:Hsuf.
      - apply HasSuffix_inv in Hsuf as [pre ->]. exists (before +:+ pre).
        by rewrite string_app_nil_r, !string_app_assoc.
      - exists (before +:+ data). by rewrite !string_app_assoc. }
    destruct Htwo as [pre ->]. split.
    + rewrite <- (string_app_assoc pre nl nl). apply HasSuffix_app.
    + intros _. apply (HasSuffix_app pre (nl +:+ nl)).
Qed.

Lemma output_ends_with_line_feed_witness :
  raw (Sim.cmd "greetings") = false
  ∧ HasSuffix
      (stdout Sim.quote
         (handler Samples.E0 (Sim.cmd "greetings") Samples.ended
            (Sim.start Sim.healthy)).1)
      (nl +:+ nl) = true.
Proof.
  split; [reflexivity|].
  destruct (output_ends_with_line_feed Samples.E0 (Sim.cmd "greetings")
              Samples.ended (Sim.start Sim.healthy)) as [_ Htwo].
  exact (Htwo eq_refl).
Defined.

(** * Callbacks completing during the set-up *)

Lemma deliver_conn E c ds st :
  var_nc (deliver E c ds st).2 = respond_all E c ds (var_nc st).
Proof.
  revert st. induction ds as [|d ds IH]; intros st; [reflexivity|].
  rewrite deliver_cons. cbn [snd respond_all foldl].
  fold (respond_all E c ds). by rewrite IH, handler_conn.
Qed.

Lemma handler_err E c d st :
  var_err (handler E c d st).2
  = if acked E c (msg d) then (Respond E (msg d) [] (var_nc st)).1
    else var_err st.
Proof.
  rewrite handler_state. unfold acknowledge.
  destruct (acked E c (msg d)); [|reflexivity].
  by destruct (Respond E (msg d) [] (var_nc st)).
Qed.

(** Callbacks that do not acknowledge leave [err] and the connection
    alone. *)
Lemma deliver_unacked E c ds st :
  Forall (λ d, acked E c (msg d) = false) ds →
  var_err (deliver E c ds st).2 = var_err st
  ∧ var_nc (deliver E c ds st).2 = var_nc st.
Proof.
  intros Hall. revert st.
  induction Hall as [|d ds Hd _ IH]; intros st; [done|].
  rewrite deliver_cons. cbn [snd].
  destruct (IH (handler E c d st).2) as [-> ->].
  by rewrite handler_err, handler_conn, Hd.
Qed.

Lemma acked_flags E c c' m :
  jsAck c' = jsAck c → acked E c' m = acked E c m.
Proof. unfold acked. by intros ->. Qed.

(** On the quiet schedule [subscribe_live] is [subscribe]. *)
Lemma subscribe_live_quiet E c g :
  let r := subscribe E c g in
  let l := subscribe_live E c g quiet in
  live_ending l = ending_of (run_outcome r)
  ∧ live_cmd l = run_cmd r
  ∧ live_nuid l = run_nuid r
  ∧ live_vars l = run_vars r
  ∧ live_trace l = run_trace r
  ∧ live_callbacks l = [].
Proof.
  unfold subscribe, subscribe_live.
  destruct (resolve_subject E c g) as [[[c' g'] t0]|]; [|done].
  destruct (newNatsConn E "") as [nc|err]; [|done].
  destruct (register E c' nc) as [t1 nc1]. simpl.
  destruct (LastError E (Flush E nc1).2); simpl; split_and!; done.
Qed.

(** A run that has its connection, when no callback assigns [err] between
    line 137 and line 139: the last error alone decides. *)
Lemma live_connected E c g s c' g' t0 nc :
  resolve_subject E c g = Some (c', g', t0) →
  newNatsConn E "" = inl nc →
  no_ack_in_window E c' s →
  let l := subscribe_live E c g s in
  let err := LastError E (checked_conn E c' nc s) in
  live_ending l = ending_of (verdict err)
  ∧ live_cmd l = c'
  ∧ live_trace l
    = (t0 ++ [EvConnect ""] ++ announce c')
      ++ [register_event c' (subject c'); EvFlush; EvLastError]
      ++ closing err.
Proof.
  intros Hr Hd Hwin. unfold no_ack_in_window in Hwin.
  apply Forall_app in Hwin as [Htest Hret].
  unfold subscribe_live, checked_conn. rewrite Hr, Hd. cbv zeta.
  rewrite register_events.
  set (st0 := {| var_i := 0; var_err := None;
                 var_nc := (register E c' nc).2 |}).
  set (st1 := set_nc _ (deliver E c' (at_flush s) st0).2).
  set (st2 := set_err _ (deliver E c' (at_check s) st1).2).
  assert (Hnc : var_nc (deliver E c' (at_check s) st1).2
                = respond_all E c' (at_check s)
                    (Flush E (respond_all E c' (at_flush s)
                                (register E c' nc).2)).2).
  { rewrite deliver_conn. subst st1. cbn [set_nc var_nc].
    by rewrite deliver_conn. }
  set (r3 := deliver E c' (at_test s) st2).
  destruct (deliver_unacked E c' (at_test s) st2 Htest) as [H3 _].
  destruct (deliver_unacked E c' (at_return s) r3.2 Hret) as [H4 _].
  fold r3 in H3. rewrite H4, H3. subst st2. cbn [set_err var_err].
  rewrite Hnc.
  destruct (LastError E (respond_all E c' (at_check s)
              (Flush E (respond_all E c' (at_flush s)
                          (register E c' nc).2)).2)) as [e|];
    simpl; split_and!; try done;
    repeat (rewrite <- app_assoc; simpl); reflexivity.
Qed.

Lemma window_without_flag E c s : jsAck c = false → no_ack_in_window E c s.
Proof.
  intros Hack. apply Forall_forall. intros d _.
  unfold acked. by rewrite Hack.
Qed.

Lemma window_of_flags E c c' s :
  jsAck c' = jsAck c →
  jsAck c = false ∨ no_ack_in_window E c s →
  no_ack_in_window E c' s.
Proof.
  intros Hflag [Hack|Hwin].
  - apply window_without_flag. by rewrite Hflag.
  - unfold no_ack_in_window in *. eapply Forall_impl; [exact Hwin|].
    intros d Hd. by rewrite (acked_flags E c c' _ Hflag).
Qed.

(** C7 (amended): once it has its connection, the command registers the
    callback, flushes, and asks the connection for its last error, in that
    order.  Provided no callback sends an acknowledgement between that
    check and the return (lines 137 to 139), as is always so without the
    acknowledgement flag, it returns an error, after closing the
    connection, exactly when a last error is recorded at the check, and
    that error is the one it returns; otherwise it waits.  What [Flush]
    itself returns plays no part: a failed flush with no recorded last
    error leaves the command waiting. *)
Theorem flush_then_last_error E c g s c' g' t0 nc :
  resolve_subject E c g = Some (c', g', t0) →
  newNatsConn E "" = inl nc →
  jsAck c' = false ∨ no_ack_in_window E c' s →
  let l := subscribe_live E c g s in
  let err := LastError E (checked_conn E c' nc s) in
  live_trace l
  = (t0 ++ [EvConnect ""] ++ announce c')
    ++ [register_event c' (subject c'); EvFlush; EvLastError] ++ closing err
  ∧ (∀ e, live_ending l = Returns (Some e) ↔ err = Some e)
  ∧ (live_ending l = Waits ↔ err = None)
  ∧ live_ending l ≠ Returns None
  ∧ (∀ e, (Flush E (respond_all E c' (at_flush s) (register E c' nc).2)).1
          = Some e →
          err = None → live_ending l = Waits).
Proof.
  intros Hr Hd Hwin l err. subst l err.
  apply (window_of_flags E c' c' s eq_refl) in Hwin.
  destruct (live_connected E _ _ _ _ _ _ _ Hr Hd Hwin) as (-> & _ & ->).
  split_and!.
  - reflexivity.
  - intros e. destruct (LastError E (checked_conn E c' nc s)); simpl;
      split; intros; by simplify_eq.
  - destruct (LastError E (checked_conn E c' nc s)); simpl; split; intros; done.
  - by destruct (LastError E (checked_conn E c' nc s)).
  - by intros e _ ->.
Qed.

Lemma flush_then_last_error_witness :
  let E := Sim.env (inl Samples.broken) in
  resolve_subject E Samples.ack_cmd 0%nat = Some (Samples.ack_cmd, 0%nat, [])
  ∧ newNatsConn E "" = inl Samples.broken
  ∧ no_ack_in_window E Samples.ack_cmd Samples.question_at_test
  ∧ live_ending (subscribe_live E Samples.ack_cmd 0%nat
                   Samples.question_at_test)
    = Returns (Some "nats: permissions violation").
Proof.
  intros E.
  assert (Hwin : no_ack_in_window E Samples.ack_cmd Samples.question_at_test).
  { repeat constructor. }
  split; [reflexivity|]. split; [reflexivity|]. split; [exact Hwin|].
  destruct (flush_then_last_error E Samples.ack_cmd 0%nat
              Samples.question_at_test Samples.ack_cmd 0%nat []
              Samples.broken eq_refl eq_refl (or_intror Hwin))
    as (_ & Hret & _).
  apply Hret. reflexivity.
Defined.

(** C8 (the code): the result of an acknowledgement does leave the
    callback.  The deferred closure assigns it to the [err] of
    [subscribe] (line 82), which lines 138 and 139 test and return.  With
    acknowledgements on, an order whose acknowledgement fails between line
    137 and line 138 makes the command return that failure and close the
    connection, on which no last error is recorded and on which the
    command would otherwise wait; and one whose acknowledgement succeeds
    there makes the command wait on a connection that has a recorded
    error. *)
Lemma acknowledgement_error_escapes :
  let E := Sim.env (inl Samples.deaf) in
  let l := subscribe_live E Samples.ack_cmd 0%nat Samples.order_at_test in
  let E' := Sim.env (inl Samples.broken) in
  let l' := subscribe_live E' Samples.ack_cmd 0%nat Samples.order_at_test in
  LastError E (checked_conn E Samples.ack_cmd Samples.deaf
                 Samples.order_at_test) = None
  ∧ run_outcome (subscribe E Samples.ack_cmd 0%nat) = Waiting
  ∧ live_ending l = Returns (Some "nats: connection closed")
  ∧ live_trace l
    = [EvConnect ""; EvLog fmt_subscribing_ack [AStr "orders.new"];
       EvSubscribe "orders.new"; EvFlush; EvLastError; EvClose]
  ∧ live_callbacks l
    = [[EvPrintf fmt_jetstream
          [AInt 1; AStr "ORDERS"; AStr "NEW"; AStr "orders.new"; AInt 1;
           AInt 7; AInt 42; ABool true];
        EvPrintln ["order 42"]; EvPrintln [];
        EvRespond "$JS.ACK.ORDERS.NEW.1.42.7.0" [];
        EvLog fmt_ack_failed
          [AStr "$JS.ACK.ORDERS.NEW.1.42.7.0";
           AStr "nats: connection closed"]]]
  ∧ run_outcome (subscribe E' Samples.ack_cmd 0%nat)
    = Returned "nats: permissions violation"
  ∧ live_ending l' = Waits.
Proof. split_and!; reflexivity. Qed.

Lemma live_ending_cases E c g s :
  jsAck c = false ∨ no_ack_in_window E c s →
  live_ending (subscribe_live E c g s)
  = if has_subject c then
      match newNatsConn E "" with
      | inl nc =>
          ending_of (verdict (LastError E
            (checked_conn E (live_cmd (subscribe_live E c g s)) nc s)))
      | inr err => Returns (Some err)
      end
    else Returns (Some "subject is required").
Proof.
  intros Hwin. destruct (has_subject c) eqn:Hs.
  - destruct (resolve_subject_some E c g Hs)
      as (c' & g' & Hr & _ & _ & Hj & _).
    destruct (newNatsConn E "") as [nc|err] eqn:Hd.
    + apply (window_of_flags E c c' s Hj) in Hwin.
      by destruct (live_connected E _ _ _ _ _ _ _ Hr Hd Hwin) as (-> & -> & _).
    + unfold subscribe_live. by rewrite Hr, Hd.
  - unfold subscribe_live. by rewrite (resolve_subject_none E c g Hs).
Qed.

(** X3: how a run ends, provided no callback sends an acknowledgement
    between the check of line 137 and the return of line 139, as is always
    so without the acknowledgement flag.  The command goes on to wait
    exactly when it has a subject, obtains the connection and finds no
    last error at the check.  It returns in three cases only, never
    without an error: no subject (the fixed configuration error), no
    connection (the error of [newNatsConn]), a last error on the
    connection (that error). *)
Theorem outcome_of_run E c g s :
  jsAck c = false ∨ no_ack_in_window E c s →
  let l := subscribe_live E c g s in
  (live_ending l = Waits
   ↔ has_subject c = true
     ∧ ∃ nc, newNatsConn E "" = inl nc
             ∧ LastError E (checked_conn E (live_cmd l) nc s) = None)
  ∧ (∀ r, live_ending l = Returns r
     ↔ (has_subject c = false ∧ r = Some "subject is required")
       ∨ (has_subject c = true
          ∧ ∃ e, newNatsConn E "" = inr e ∧ r = Some e)
       ∨ (has_subject c = true
          ∧ ∃ nc e, newNatsConn E "" = inl nc
                    ∧ LastError E (checked_conn E (live_cmd l) nc s) = Some e
                    ∧ r = Some e)).
Proof.
  intros Hwin l. subst l. rewrite (live_ending_cases E c g s Hwin).
  destruct (has_subject c).
  2:{ split; [split; [done|by intros [? _]]|].
      intros r. split; [intros [= <-]; by left|].
      intros [[_ ->]|[[? _]|[? _]]]; done. }
  destruct (newNatsConn E "") as [nc|err].
  - destruct (LastError E (checked_conn E _ nc s)) as [e'|] eqn:Herr; simpl.
    + split; [split; [done|intros (_ & nc' & [= <-] & ?); congruence]|].
      intros r. split.
      * intros [= <-]. right; right. eauto 10.
      * intros [[? _]|[(_ & e & ? & _)|(_ & nc' & e & [= <-] & ? & ->)]];
          [done|done|congruence].
    + split; [split; [by eauto|done]|].
      intros r. split; [done|].
      intros [[? _]|[(_ & e & ? & _)|(_ & nc' & e & [= <-] & ? & _)]];
        [done|done|congruence].
  - split; [split; [done|by intros (_ & nc' & ? & _)]|].
    intros r. split.
    + intros [= <-]. right; left. eauto.
    + intros [[? _]|[(_ & e & [= <-] & ->)|(_ & nc' & e & ? & _)]]; done.
Qed.

Lemma outcome_of_run_witness :
  let E := Sim.env (inl Samples.deaf) in
  jsAck (Sim.cmd "orders.new") = false
  ∧ live_ending (subscribe_live E (Sim.cmd "orders.new") 0%nat
                   Samples.order_at_test) = Waits.
Proof.
  intros E. split; [reflexivity|].
  destruct (outcome_of_run E (Sim.cmd "orders.new") 0%nat
              Samples.order_at_test (or_introl eq_refl)) as [Hwait _].
  apply Hwait. split; [reflexivity|]. exists Samples.deaf. by split.
Defined.

(** X16: failures inside a callback.  When the parser returns no metadata
    for a message with a reply subject, the callback prints the plain
    form with the reply subject, logs nothing, sends no response and
    leaves the captured [err] alone.  When an acknowledgement is due and
    the send fails, the events of the callback end with the send and one
    log line that names the reply subject and the cause, and the failure
    is what the captured [err] then holds.  No later callback reads it:
    the events of any further deliveries are the same whatever [err]
    holds. *)
Theorem failures_inside_a_callback E c d st :
  let m := msg d in
  let i := wrap_int (var_i st + 1) in
  let evs := (handler E c d st).1 in
  let st' := (handler E c d st).2 in
  (Reply m ≠ "" → (ParseJSMsgMetadata E m).1 = None →
   evs = display c d i None
   ∧ summary c m i None
     = [EvPrintf fmt_plain_reply [AInt i; AStr (Subject m); AStr (Reply m)]]
   ∧ Forall (λ e, is_log e = false ∧ is_respond e = false) evs
   ∧ var_err st' = var_err st)
  ∧ (∀ e, acked E c m = true →
          (Respond E m [] (var_nc st)).1 = Some e →
          evs = display c d i (msg_info E m)
                ++ [EvRespond (Reply m) [];
                    EvLog fmt_ack_failed [AStr (Reply m); AStr e]]
          ∧ Sprintf (Quote E) fmt_ack_failed [AStr (Reply m); AStr e]
            = "Acknowledging message via subject " +:+ Reply m
              +:+ " failed: " +:+ e +:+ nl
          ∧ var_err st' = Some e)
  ∧ (∀ ds e, (deliver E c ds (set_err e st')).1 = (deliver E c ds st').1).
Proof.
  intros m i evs st'. subst m i evs st'. split_and!.
  - intros Hreply Hnone.
    assert (Hinfo : msg_info E (msg d) = None).
    { unfold msg_info. by rewrite bool_decide_eq_true_2. }
    assert (Hack : acked E c (msg d) = false).
    { unfold acked. rewrite Hinfo. rewrite bool_decide_eq_false_2.
      - apply andb_false_r.
      - by intros [? ?]. }
    split_and!.
    + by rewrite handler_events, Hack, Hinfo, app_nil_r.
    + unfold summary. by rewrite bool_decide_eq_true_2.
    + rewrite handler_events, Hack, Hinfo, app_nil_r.
      eapply Forall_impl; [apply display_stdout|].
      intros e He. by destruct e.
    + by rewrite handler_err, Hack.
  - intros e Hack Hresp. split_and!.
    + by rewrite handler_events, Hack, Hresp.
    + apply Sprintf_ack_failed.
    + by rewrite handler_err, Hack.
  - intros ds e. apply deliver_set_err.
Qed.

Lemma failures_inside_a_callback_witness :
  acked (Sim.env (inl Samples.deaf)) Samples.ack_cmd (msg Samples.order) = true
  ∧ (Respond (Sim.env (inl Samples.deaf)) (msg Samples.order) []
       Samples.deaf).1 = Some "nats: connection closed"
  ∧ (handler (Sim.env (inl Samples.deaf)) Samples.ack_cmd Samples.order
       (Sim.start Samples.deaf)).1
    = [EvPrintf fmt_jetstream
         [AInt 1; AStr "ORDERS"; AStr "NEW"; AStr "orders.new"; AInt 1;
          AInt 7; AInt 42; ABool true];
       EvPrintln ["order 42"]; EvPrintln [];
       EvRespond "$JS.ACK.ORDERS.NEW.1.42.7.0" [];
       EvLog fmt_ack_failed
         [AStr "$JS.ACK.ORDERS.NEW.1.42.7.0"; AStr "nats: connection closed"]].
Proof.
  split; [reflexivity|]. split; [reflexivity|].
  destruct (failures_inside_a_callback (Sim.env (inl Samples.deaf))
              Samples.ack_cmd Samples.order (Sim.start Samples.deaf))
    as (_ & Hfail & _).
  destruct (Hfail "nats: connection closed" eq_refl eq_refl) as (Hevs & _).
  exact Hevs.
Defined.
